(** * pdf_summary_annotator: extractive summary and note-box layout

    A shallow embedding of the pure core of
    [scripts/pdf_summary_annotator.py]: the sentence splitter, the tokenizer,
    the frequency scorer, the summary builder and the note-box placement.

    Modelling conventions
    - A Python [str] is a [string]; its characters are the code points below
      256, with [str.isspace], [str.lower] and the regular-expression
      classes as CPython defines them on that range.
    - A Python [int] argument is a [Z]; an occurrence count is a [nat].
    - A Python [float] is an IEEE binary64 value, a [spec_float] with
      precision 53 and maximal exponent 1024.  [int / int] is the correctly
      rounded quotient.
    - A [Counter] is an association list in insertion order, since
      [most_common] breaks ties by that order.
    - [list.sort(key=..., reverse=True)] is a stable descending sort; it is
      embedded as a stable insertion sort that compares keys with [<] only. *)

From Stdlib Require Import Bool Arith ZArith Lia List String Ascii.
From Stdlib Require Import Sorted Permutation.
From Stdlib Require Import Floats.SpecFloat.
From Stdlib Require Import DecimalString.
Import ListNotations.

Open Scope string_scope.
Open Scope list_scope.
Open Scope nat_scope.

(* ================================================================= *)
(** ** Python strings *)

Module PyStr.

Definition code (c : ascii) : nat := nat_of_ascii c.

(** [str.isspace] on one character: TAB..CR, FS..US, SPACE, NEL, NBSP.
    The class [\s] of [re] is the same set. *)
Definition isspace (c : ascii) : bool :=
  let n := code c in
  ((9 <=? n) && (n <=? 13)) || ((28 <=? n) && (n <=? 32))
  || (n =? 133) || (n =? 160).

(** [str.lower] on one character: A..Z, and the Latin-1 capitals
    U+00C0..U+00DE except the multiplication sign U+00D7. *)
Definition lower_char (c : ascii) : ascii :=
  let n := code c in
  if ((65 <=? n) && (n <=? 90))
     || ((192 <=? n) && (n <=? 222) && negb (n =? 215))
  then ascii_of_nat (n + 32) else c.

Fixpoint lower (s : string) : string :=
  match s with
  | EmptyString => EmptyString
  | String c r => String (lower_char c) (lower r)
  end.

Fixpoint lstrip (s : string) : string :=
  match s with
  | EmptyString => EmptyString
  | String c r => if isspace c then lstrip r else s
  end.

Fixpoint rstrip (s : string) : string :=
  match s with
  | EmptyString => EmptyString
  | String c r =>
      match rstrip r with
      | EmptyString => if isspace c then EmptyString else String c EmptyString
      | r' => String c r'
      end
  end.

(** [s.strip()] *)
Definition strip (s : string) : string := rstrip (lstrip s).

(** [sep.join(parts)] *)
Fixpoint join (sep : string) (parts : list string) : string :=
  match parts with
  | [] => EmptyString
  | [p] => p
  | p :: rest => (p ++ sep ++ join sep rest)%string
  end.

(** Truth value of a string: [not s] holds for the empty string only. *)
Definition is_empty (s : string) : bool :=
  match s with EmptyString => true | _ => false end.

(** [l[:n]] for a Python integer [n]: a negative [n] counts from the end. *)
Definition slice_to {A : Type} (l : list A) (n : Z) : list A :=
  if (n <? 0)%Z
  then firstn (Z.to_nat (Z.of_nat (List.length l) + n)) l
  else firstn (Z.to_nat n) l.

End PyStr.

(* ================================================================= *)
(** ** The three regular expressions of the script *)

Module Regex.
Import PyStr.

(** Adds a character in front of the piece a scan is building. *)
Definition push (c : ascii) (pieces : list string) : list string :=
  match pieces with
  | [] => [String c EmptyString]
  | p :: ps => String c p :: ps
  end.

(** [re.sub(r"\s+", " ", s)]: every maximal run of whitespace becomes one
    space.  [in_run] tells that the previous character was whitespace. *)
Fixpoint sub_ws (in_run : bool) (s : string) : string :=
  match s with
  | EmptyString => EmptyString
  | String c r =>
      if isspace c
      then if in_run then sub_ws true r else String " " (sub_ws true r)
      else String c (sub_ws false r)
  end.

(** The class [[.!?]]. *)
Definition is_terminal (c : ascii) : bool :=
  let n := code c in (n =? 46) || (n =? 33) || (n =? 63).

(** Where the scan of [re.split(r"(?<=[.!?])\s+", s)] stands: inside a
    piece after an ordinary character, inside a piece right after a
    terminal mark (the lookbehind holds), or inside a separator. *)
Inductive split_state : Type := Plain | AfterTerm | InSep.

Fixpoint split_at_terminal (st : split_state) (s : string) : list string :=
  match s with
  | EmptyString => [EmptyString]
  | String c r =>
      if isspace c then
        match st with
        | Plain => push c (split_at_terminal Plain r)
        | AfterTerm => EmptyString :: split_at_terminal InSep r
        | InSep => split_at_terminal InSep r
        end
      else push c (split_at_terminal
                     (if is_terminal c then AfterTerm else Plain) r)
  end.

(** The class [[A-Za-z']]. *)
Definition is_word_char (c : ascii) : bool :=
  let n := code c in
  ((65 <=? n) && (n <=? 90)) || ((97 <=? n) && (n <=? 122)) || (n =? 39).

(** The maximal runs of word characters of [s], empty runs included: the
    head is the run that starts at the first character. *)
Fixpoint word_runs (s : string) : list string :=
  match s with
  | EmptyString => [EmptyString]
  | String c r =>
      if is_word_char c then push c (word_runs r)
      else EmptyString :: word_runs r
  end.

(** [re.findall(r"[A-Za-z']{2,}", s)]: the greedy match takes a whole
    maximal run, and a run of one character matches nowhere. *)
Definition findall_words (s : string) : list string :=
  filter (fun w => 2 <=? String.length w) (word_runs s).

End Regex.

(* ================================================================= *)
(** ** Python floats *)

Module Float.

Definition float : Type := spec_float.

Definition prec : Z := 53.
Definition emax : Z := 1024.

(** The literal [0.0]. *)
Definition zero : float := S754_zero false.

(** An integer as an exact binary value, before any rounding. *)
Definition exact_of_Z (z : Z) : spec_float :=
  match z with
  | Z0 => S754_zero false
  | Zpos p => S754_finite false p 0
  | Zneg p => S754_finite true p 0
  end.

(** [float(z)]: the integer rounded to binary64. *)
Definition of_Z (z : Z) : float := binary_normalize prec emax z 0 false.

(** [a / b] on two integers: the quotient rounded once to binary64.
    CPython raises [ZeroDivisionError] for [b = 0] and [OverflowError] where
    the rounded quotient is an infinity; [sentence_score] divides by a
    length that is not 0, and a mean of counts overflows only from a count
    of 2^1024 or more. *)
Definition truediv (a b : Z) : float :=
  SFdiv prec emax (exact_of_Z a) (exact_of_Z b).

Definition sub (x y : float) : float := SFsub prec emax x y.
Definition add (x y : float) : float := SFadd prec emax x y.

(** [x < y] and [x <= y]. *)
Definition ltb (x y : float) : bool := SFltb x y.
Definition leb (x y : float) : bool := SFleb x y.

Definition is_nan (x : float) : bool :=
  match x with S754_nan => true | _ => false end.

Definition not_nan (x : float) : Prop := is_nan x = false.

End Float.

(* ================================================================= *)
(** ** Stable descending sort *)

Section StableSort.
Context {A K : Type}.
Variable key : A -> K.
Variable lt : K -> K -> bool.

(** [x] travels past the elements whose key is strictly greater and
    settles in front of the first one that is not. *)
Fixpoint insert_desc (x : A) (l : list A) : list A :=
  match l with
  | [] => [x]
  | y :: r => if lt (key x) (key y) then y :: insert_desc x r else x :: l
  end.

(** [sorted(l, key=key, reverse=True)] *)
Definition sort_desc (l : list A) : list A := fold_right insert_desc [] l.

(** Two keys tie when neither is less than the other. *)
Definition tied (k k' : K) : bool := negb (lt k k') && negb (lt k' k).

(** Descending order: no element is followed by one with a greater key. *)
Definition desc (a b : A) : Prop := lt (key a) (key b) = false.

(** Descending order where tied keys go by increasing rank. *)
Definition desc_then_rank (rank : A -> nat) (a b : A) : Prop :=
  lt (key a) (key b) = false
  /\ (lt (key b) (key a) = true \/ rank a < rank b).

End StableSort.

(* ================================================================= *)
(** ** The script *)

Definition STOPWORDS : list string :=
  [ "a"; "an"; "and"; "are"; "as"; "at"; "be"; "but"; "by"; "for"; "from";
    "has"; "have"; "if"; "in"; "into"; "is"; "it"; "its"; "no"; "not"; "of";
    "on"; "or"; "such"; "that"; "the"; "their"; "then"; "there"; "these";
    "they"; "this"; "to"; "was"; "were"; "will"; "with"; "we"; "you";
    "your" ].

Definition in_stopwords (w : string) : bool := existsb (String.eqb w) STOPWORDS.

Definition split_sentences (text : string) : list string :=
  let cleaned := Regex.sub_ws false (PyStr.strip text) in
  if PyStr.is_empty cleaned then []
  else Regex.split_at_terminal Regex.Plain cleaned.

Definition tokenize_words (text : string) : list string :=
  filter (fun word => negb (in_stopwords word))
         (Regex.findall_words (PyStr.lower text)).

(** A [Counter]: keys in insertion order, each with its count. *)
Definition counter : Type := list (string * nat).

(** [c[w] += 1] *)
Fixpoint counter_incr (w : string) (c : counter) : counter :=
  match c with
  | [] => [(w, 1)]
  | (k, n) :: r =>
      if String.eqb k w then (k, S n) :: r else (k, n) :: counter_incr w r
  end.

(** [Counter(words)] *)
Definition Counter (words : list string) : counter :=
  fold_left (fun c w => counter_incr w c) words [].

(** [c[w]], which is 0 for a missing key. *)
Fixpoint counter_get (c : counter) (w : string) : nat :=
  match c with
  | [] => 0
  | (k, n) :: r => if String.eqb k w then n else counter_get r w
  end.

(** [c.most_common(n)], that is [heapq.nlargest(n, c.items(), key=count)]:
      the first [n] items of the stable descending sort, none when [n <= 0]. *)
Definition most_common (c : counter) (n : Z) : list (string * nat) :=
  firstn (Z.to_nat n) (sort_desc snd Nat.ltb c).

(** The score of one sentence: 0.0 without content words, else the mean
    count of its content words. *)
Definition sentence_score (word_scores : counter) (sentence : string)
  : Float.float :=
  let words := tokenize_words sentence in
  match words with
  | [] => Float.zero
  | _ => Float.truediv
           (Z.of_nat (list_sum (map (counter_get word_scores) words)))
           (Z.of_nat (List.length words))
  end.

Definition score_sentences (sentences : list string) (word_scores : counter)
  : list (string * Float.float) :=
  map (fun sentence => (sentence, sentence_score word_scores sentence))
      sentences.

(** [scored.sort(key=lambda item: item[1], reverse=True)] *)
Definition sort_scored (scored : list (string * Float.float))
  : list (string * Float.float) :=
  sort_desc snd Float.ltb scored.

Definition top_sentences (sentences : list string) (word_scores : counter)
    (limit : Z) : list string :=
  let scored := sort_scored (score_sentences sentences word_scores) in
  map fst (PyStr.slice_to scored limit).

Definition top_keywords (words : list string) (limit : Z) : list string :=
  let counts := Counter words in
  map fst (most_common counts limit).

Record PageNote : Type := mkPageNote {
  page : nat;
  summary : string;
  keywords : list string
}.

Record Summary : Type := mkSummary {
  overall_summary : list string;
  key_points : list string;
  page_notes : list PageNote
}.

Definition NO_TEXT : string := "(No extractable text)".

(** The body of the loop over [enumerate(page_texts, start=1)]. *)
Definition page_note (keyword_count : Z) (index : nat) (text : string)
  : PageNote :=
  let page_sentences := split_sentences text in
  let page_words := tokenize_words text in
  let page_scores := Counter page_words in
  let page_summary := top_sentences page_sentences page_scores 1 in
  let page_keywords := top_keywords page_words (Z.min 4 keyword_count) in
  {| page := index;
     summary := match page_summary with s :: _ => s | [] => NO_TEXT end;
     keywords := page_keywords |}.

Fixpoint page_notes_from (keyword_count : Z) (index : nat)
    (page_texts : list string) : list PageNote :=
  match page_texts with
  | [] => []
  | text :: rest =>
      page_note keyword_count index text
      :: page_notes_from keyword_count (S index) rest
  end.

Definition NEWLINE : string := String (ascii_of_nat 10) EmptyString.

Definition build_summary (page_texts : list string)
    (summary_sentences keyword_count : Z) : Summary :=
  let full_text := PyStr.join NEWLINE page_texts in
  let sentences := split_sentences full_text in
  let full_words := tokenize_words full_text in
  let word_scores := Counter full_words in
  {| overall_summary := top_sentences sentences word_scores summary_sentences;
     key_points := top_keywords full_words keyword_count;
     page_notes := page_notes_from keyword_count 1 page_texts |}.

(** The arithmetic [calculate_note_box] asks of its numbers. *)
Class Number (N : Type) : Type := { nsub : N -> N -> N }.

#[export] Instance Number_float : Number Float.float := {| nsub := Float.sub |}.

Definition calculate_note_box {N : Type} `{Number N}
    (page_width page_height box_width box_height margin : N)
    (position : string) : N * N :=
  if String.eqb position "top-left" then
    (margin, nsub (nsub page_height box_height) margin)
  else if String.eqb position "top-right" then
    (nsub (nsub page_width box_width) margin,
     nsub (nsub page_height box_height) margin)
  else if String.eqb position "bottom-left" then
    (margin, margin)
  else if String.eqb position "bottom-right" then
    (nsub (nsub page_width box_width) margin, margin)
  else
    (nsub (nsub page_width box_width) margin,
     nsub (nsub page_height box_height) margin).

(* ================================================================= *)
(** ** The caller and the Markdown export *)

(** [min(a, b)] on two floats: [b] when [b < a], else [a]. *)
Definition float_min (a b : Float.float) : Float.float :=
  if Float.ltb b a then b else a.

(** [x * y] on two floats. *)
Definition float_mul (x y : Float.float) : Float.float :=
  SFmul Float.prec Float.emax x y.

(** The literals [0.4] and [0.3] as binary64 values. *)
Definition LIT_0_4 : Float.float := S754_finite false 7205759403792794 (-54).
Definition LIT_0_3 : Float.float := S754_finite false 5404319552844595 (-54).

(** The box size that [annotate_pdf] hands to the overlay:
    [min(note_width, page_width * 0.4)] and
    [min(note_height, page_height * 0.3)]. *)
Definition note_box_size (note_width note_height page_width page_height
                          : Float.float) : Float.float * Float.float :=
  (float_min note_width (float_mul page_width LIT_0_4),
   float_min note_height (float_mul page_height LIT_0_3)).

(** [str(n)] for an integer that is not negative. *)
Definition str_of_nat (n : nat) : string :=
  NilEmpty.string_of_uint (Nat.to_uint n).

(** [", ".join(note["keywords"]) if note["keywords"] else "(none)"] *)
Definition keywords_text (kws : list string) : string :=
  match kws with
  | [] => "(none)"
  | _ => PyStr.join ", " kws
  end.

(** The line of one page note. *)
Definition note_line (note : PageNote) : string :=
  ("- **Page " ++ str_of_nat (page note) ++ "**: " ++ summary note
   ++ " (Keywords: " ++ keywords_text (keywords note) ++ ")")%string.

(** The list [lines] that [write_markdown] builds. *)
Definition markdown_lines (s : Summary) : list string :=
  ["# Document Summary"; ""; "## Overall Summary"]
  ++ map (fun sentence => ("- " ++ sentence)%string) (overall_summary s)
  ++ [""; "## Key Points"]
  ++ map (fun keyword => ("- " ++ keyword)%string) (key_points s)
  ++ [""; "## Page Notes"]
  ++ map note_line (page_notes s).

(** The text that [write_markdown] writes to its output path. *)
Definition write_markdown (s : Summary) : string :=
  (PyStr.join NEWLINE (markdown_lines s) ++ NEWLINE)%string.

(* ================================================================= *)
(** ** Properties the statements below speak of *)

(** The mean count of a non-empty list of content words. *)
Definition mean_count (word_scores : counter) (words : list string)
  : Float.float :=
  Float.truediv (Z.of_nat (list_sum (map (counter_get word_scores) words)))
                (Z.of_nat (List.length words)).

(** The score of [item] equals [k]: neither is less than the other. *)
Definition same_score (k : Float.float) (item : string * Float.float) : bool :=
  tied Float.ltb k (snd item).

(** [ranked] is [scored] put in descending order of score with equal scores
    left in their original order. *)
Definition stably_ranked (scored ranked : list (string * Float.float)) : Prop :=
  Permutation ranked scored
  /\ StronglySorted (desc snd Float.ltb) ranked
  /\ forall k, Float.not_nan k ->
       filter (same_score k) ranked = filter (same_score k) scored.

(** What is said of [top_sentences] at one input: the result is the first
    [limit] texts of the stable ranking, and all of them when [limit] is
    not below the number of sentences. *)
Definition first_limit_of_ranking (sentences : list string)
    (word_scores : counter) (limit : Z) : Prop :=
  exists ranked,
    stably_ranked (score_sentences sentences word_scores) ranked
    /\ top_sentences sentences word_scores limit
       = map fst (firstn (Z.to_nat limit) ranked)
    /\ ((Z.of_nat (List.length sentences) <= limit)%Z ->
        top_sentences sentences word_scores limit = map fst ranked).

(** Every character of [s] satisfies [p]. *)
Fixpoint all_chars (p : ascii -> bool) (s : string) : bool :=
  match s with
  | EmptyString => true
  | String c r => p c && all_chars p r
  end.

(** Some character of [s] satisfies [p]. *)
Fixpoint some_char (p : ascii -> bool) (s : string) : bool :=
  match s with
  | EmptyString => false
  | String c r => p c || some_char p r
  end.

(** The first character of [s] is whitespace. *)
Definition starts_with_space (s : string) : bool :=
  match s with
  | EmptyString => false
  | String c _ => PyStr.isspace c
  end.

(** The last character of [s] is whitespace. *)
Fixpoint ends_with_space (s : string) : bool :=
  match s with
  | EmptyString => false
  | String c r =>
      match r with
      | EmptyString => PyStr.isspace c
      | String _ _ => ends_with_space r
      end
  end.

(** Two whitespace characters stand next to each other in [s]. *)
Fixpoint has_double_space (s : string) : bool :=
  match s with
  | EmptyString => false
  | String c r => (PyStr.isspace c && starts_with_space r) || has_double_space r
  end.

(** Every whitespace character of [s] is followed by a character that is
    not whitespace. *)
Fixpoint single_spaced (s : string) : bool :=
  match s with
  | EmptyString => true
  | String c r =>
      (negb (PyStr.isspace c)
       || (negb (PyStr.is_empty r) && negb (starts_with_space r)))
      && single_spaced r
  end.

(** The only whitespace character of [s] is the space U+0020. *)
Definition spaces_only (s : string) : bool :=
  all_chars (fun c => negb (PyStr.isspace c) || (PyStr.code c =? 32)) s.

(** The text that [split_sentences] hands to [re.split]. *)
Definition cleaned (text : string) : string :=
  Regex.sub_ws false (PyStr.strip text).

Definition SPACE : string := String " "%char EmptyString.

(** A piece of a split that is not empty, does not start with whitespace
    and has single spaces. *)
Definition tidy_piece (p : string) : Prop :=
  p <> EmptyString /\ starts_with_space p = false /\ single_spaced p = true.

(** A sentence as [split_sentences] should return it. *)
Definition tidy_sentence (s : string) : Prop :=
  s <> EmptyString
  /\ starts_with_space s = false
  /\ ends_with_space s = false
  /\ has_double_space s = false.

(** The classes [[A-Z]], [[a-z']] and [[A-Za-z]]. *)
Definition is_upper (c : ascii) : bool :=
  let n := PyStr.code c in (65 <=? n) && (n <=? 90).

Definition is_lower_word_char (c : ascii) : bool :=
  let n := PyStr.code c in ((97 <=? n) && (n <=? 122)) || (n =? 39).

Definition is_letter (c : ascii) : bool :=
  let n := PyStr.code c in
  ((65 <=? n) && (n <=? 90)) || ((97 <=? n) && (n <=? 122)).

(** [w] matches [[A-Za-z']{2,}] in full. *)
Definition matches_word (w : string) : Prop :=
  2 <= String.length w /\ all_chars Regex.is_word_char w = true.

(** [w] is its own lower-casing and has no capital letter. *)
Definition lower_cased (w : string) : Prop :=
  PyStr.lower w = w /\ some_char is_upper w = false.

(** A token as [tokenize_words] emits it. *)
Definition content_token (w : string) : Prop :=
  matches_word w /\ lower_cased w /\ in_stopwords w = false.

(** What C5 says of a token: a content token that has a letter. *)
Definition alphabetic_content_token (w : string) : Prop :=
  content_token w /\ some_char is_letter w = true.

(** No character of [w] is outside [[a-z']]. *)
Definition lower_word_chars (w : string) : Prop :=
  all_chars is_lower_word_char w = true.

(** The note of a page without text. *)
Definition empty_note (index : nat) : PageNote :=
  {| page := index; summary := NO_TEXT; keywords := [] |}.

(** The score of a sentence of [text] against the table of that page. *)
Definition page_score (text sentence : string) : Float.float :=
  sentence_score (Counter (tokenize_words text)) sentence.

(** [best] is the first of the highest-scoring sentences of the page
    [text]: the sentences before it score less, the ones after it do not
    score more. *)
Definition first_best_sentence (text best : string) : Prop :=
  exists before after,
    split_sentences text = before ++ best :: after
    /\ Forall (fun s => Float.ltb (page_score text s) (page_score text best)
                        = true) before
    /\ Forall (fun s => Float.ltb (page_score text best) (page_score text s)
                        = false) after.

(** The box with lower-left corner [xy] lies within the page, each sum
    and comparison being the binary64 one. *)
Definition within_page_float
    (page_width page_height box_width box_height : Float.float)
    (xy : Float.float * Float.float) : Prop :=
  Float.leb Float.zero (fst xy) = true
  /\ Float.leb (Float.add (fst xy) box_width) page_width = true
  /\ Float.leb Float.zero (snd xy) = true
  /\ Float.leb (Float.add (snd xy) box_height) page_height = true.

(** The position of the first occurrence of [w] in [words]. *)
Fixpoint index_of (w : string) (words : list string) : nat :=
  match words with
  | [] => 0
  | x :: rest => if String.eqb x w then 0 else S (index_of w rest)
  end.

(** The number of occurrences of [w] in [words]. *)
Definition occurrences (words : list string) (w : string) : nat :=
  count_occ string_dec words w.

(** The number of distinct words of [words]. *)
Definition distinct_count (words : list string) : nat :=
  List.length (nodup string_dec words).

(** [a] goes before [b] among the keywords of [words]: it occurs more
    often, or as often and first. *)
Definition keyword_before (words : list string) (a b : string) : Prop :=
  occurrences words b < occurrences words a
  \/ (occurrences words a = occurrences words b
      /\ index_of a words < index_of b words).

(** The last character of [s] is one of [.], [!] and [?]. *)
Fixpoint ends_with_terminal (s : string) : bool :=
  match s with
  | EmptyString => false
  | String c r =>
      match r with
      | EmptyString => Regex.is_terminal c
      | String _ _ => ends_with_terminal r
      end
  end.

(** Somewhere in [s] a terminal mark is directly followed by whitespace. *)
Fixpoint has_terminal_space (s : string) : bool :=
  match s with
  | EmptyString => false
  | String c r =>
      (Regex.is_terminal c && starts_with_space r) || has_terminal_space r
  end.

(** The number of characters of [s] that satisfy [p]. *)
Fixpoint count_chars (p : ascii -> bool) (s : string) : nat :=
  match s with
  | EmptyString => 0
  | String c r => (if p c then 1 else 0) + count_chars p r
  end.

(** The line feed U+000A. *)
Definition is_line_feed (c : ascii) : bool := PyStr.code c =? 10.

(** [x <= y] holds of two floats. *)
Definition float_le (x y : Float.float) : Prop := Float.leb x y = true.

(** [s] holds no line feed. *)
Definition single_line (s : string) : Prop := count_chars is_line_feed s = 0.

(** The strings of a note hold no line feed. *)
Definition single_line_note (note : PageNote) : Prop :=
  single_line (summary note) /\ Forall single_line (keywords note).

(** [x] is a binary64 value, the representation every Python float has. *)
Definition is_binary64 (x : Float.float) : Prop :=
  valid_binary Float.prec Float.emax x = true.

(** [x] is a binary64 number: neither an infinity nor a NaN. *)
Definition is_finite_num (x : Float.float) : bool :=
  match x with
  | S754_zero _ | S754_finite _ _ _ => valid_binary Float.prec Float.emax x
  | _ => false
  end.

(** The corner [xy] of a box lies between 0 and the room the page leaves
    beside the box: [0 <= x <= page_width - box_width] and
    [0 <= y <= page_height - box_height], each difference and comparison
    being the binary64 one. *)
Definition corner_on_page
    (page_width page_height box_width box_height : Float.float)
    (xy : Float.float * Float.float) : Prop :=
  float_le Float.zero (fst xy)
  /\ float_le (fst xy) (Float.sub page_width box_width)
  /\ float_le Float.zero (snd xy)
  /\ float_le (snd xy) (Float.sub page_height box_height).

(** The exponent binary64 gives a value of magnitude [2^e]. *)
Definition fx (e : Z) : Z := fexp Float.prec Float.emax e.

(** By how many bits rounding shifts the mantissa [m] at exponent [e]. *)
Definition k_of (m e : Z) : Z := Z.max 0 (fx (Zdigits2 m + e) - e)%Z.

(** The float that rounding builds from a final mantissa and exponent. *)
Definition pack (s : bool) (m3 e3 : Z) : spec_float :=
  match m3 with
  | Z0 => S754_zero s
  | Zpos p =>
      if (e3 <=? Float.emax - Float.prec)%Z then S754_finite s p e3
      else S754_infinity s
  | Zneg _ => S754_nan
  end.

(* ================================================================= *)
(** ** Facts about the stable descending sort *)

Section StableSortFacts.
Context {A K : Type}.
Variable key : A -> K.
Variable lt : K -> K -> bool.

Lemma insert_desc_perm (x : A) (l : list A) :
  Permutation (insert_desc key lt x l) (x :: l).
Proof.
  induction l as [|y r IH]; simpl.
  - apply Permutation_refl.
  - destruct (lt (key x) (key y)).
    + apply Permutation_trans with (y :: x :: r).
      * now apply perm_skip.
      * apply perm_swap.
    + apply Permutation_refl.
Qed.

Lemma sort_desc_perm (l : list A) : Permutation (sort_desc key lt l) l.
Proof.
  induction l as [|x r IH]; simpl.
  - apply perm_nil.
  - eapply Permutation_trans.
    + apply insert_desc_perm.
    + now apply perm_skip.
Qed.

Lemma sort_desc_length (l : list A) :
  List.length (sort_desc key lt l) = List.length l.
Proof. apply Permutation_length, sort_desc_perm. Qed.

Lemma insert_desc_Forall (P : A -> Prop) (x : A) (l : list A) :
  P x -> Forall P l -> Forall P (insert_desc key lt x l).
Proof.
  intros Hx Hl.
  apply (Permutation_Forall (Permutation_sym (insert_desc_perm x l))).
  now constructor.
Qed.

(** The order facts, asked only of the keys that satisfy [ok]. *)
Variable ok : K -> Prop.
Hypothesis lt_irrefl : forall k, ok k -> lt k k = false.
Hypothesis lt_trans :
  forall a b c, ok a -> ok b -> ok c ->
    lt a b = true -> lt b c = true -> lt a c = true.
Hypothesis lt_negtrans :
  forall a b c, ok a -> ok b -> ok c ->
    lt a b = false -> lt b c = false -> lt a c = false.

Lemma lt_asym (a b : K) : ok a -> ok b -> lt a b = true -> lt b a = false.
Proof.
  intros Ha Hb Hab.
  destruct (lt b a) eqn:Hba; [|reflexivity].
  rewrite <- (lt_irrefl a Ha).
  symmetry. now apply (lt_trans a b a).
Qed.

Local Abbreviation descR := (desc key lt).

Local Abbreviation okA := (fun a : A => ok (key a)).

Lemma insert_desc_sorted (x : A) (l : list A) :
  ok (key x) -> Forall okA l ->
  StronglySorted descR l -> StronglySorted descR (insert_desc key lt x l).
Proof.
  intros Hx Hl Hs.
  induction Hs as [|y r Hs IH Hy]; simpl.
  - constructor; constructor.
  - inversion Hl as [|? ? Hoky Hokr]; subst.
    destruct (lt (key x) (key y)) eqn:Hxy.
    + constructor.
      * now apply IH.
      * apply insert_desc_Forall; [|exact Hy].
        now apply lt_asym.
    + constructor.
      * now constructor.
      * constructor; [exact Hxy|].
        rewrite Forall_forall in Hy, Hokr |- *.
        intros b Hb.
        apply (lt_negtrans (key x) (key y) (key b));
          [exact Hx | exact Hoky | now apply Hokr | exact Hxy
          | now apply Hy].
Qed.

Lemma sort_desc_ok (l : list A) : Forall okA l -> Forall okA (sort_desc key lt l).
Proof.
  intros H.
  apply (Permutation_Forall (Permutation_sym (sort_desc_perm l)) H).
Qed.

Lemma sort_desc_sorted (l : list A) :
  Forall okA l -> StronglySorted descR (sort_desc key lt l).
Proof.
  induction l as [|x r IH]; intros H; simpl.
  - constructor.
  - inversion H; subst.
    apply insert_desc_sorted; auto.
    now apply sort_desc_ok.
Qed.

(** Stability: the elements whose key ties with [k] keep their order. *)
Lemma insert_desc_stable (k : K) (x : A) (l : list A) :
  ok k -> ok (key x) -> Forall okA l ->
  filter (fun a => tied lt k (key a)) (insert_desc key lt x l)
  = filter (fun a => tied lt k (key a)) (x :: l).
Proof.
  intros Hk Hx Hl.
  induction l as [|y r IH]; [reflexivity|].
  inversion Hl as [|? ? Hoky Hokr]; subst.
  cbn [insert_desc].
  destruct (lt (key x) (key y)) eqn:Hxy; [|reflexivity].
  cbn [filter] in IH |- *.
  rewrite (IH Hokr).
  destruct (tied lt k (key x)) eqn:Tx, (tied lt k (key y)) eqn:Ty;
    try reflexivity.
  exfalso.
  unfold tied in Tx, Ty.
  apply andb_prop in Tx, Ty.
  destruct Tx as [_ Tx], Ty as [Ty _].
  apply negb_true_iff in Tx, Ty.
  rewrite (lt_negtrans (key x) k (key y)) in Hxy; auto.
  discriminate.
Qed.

Lemma sort_desc_stable (k : K) (l : list A) :
  ok k -> Forall okA l ->
  filter (fun a => tied lt k (key a)) (sort_desc key lt l)
  = filter (fun a => tied lt k (key a)) l.
Proof.
  intros Hk.
  induction l as [|x r IH]; intros Hl; [reflexivity|].
  inversion Hl; subst.
  cbn [sort_desc fold_right].
  fold (sort_desc key lt r).
  rewrite insert_desc_stable; auto.
  - cbn [filter]. now rewrite IH.
  - now apply sort_desc_ok.
Qed.

(** When the input is listed by increasing rank, the output is sorted by
    descending key and, among tied keys, by increasing rank. *)
Variable rank : A -> nat.

Local Abbreviation rankedR := (desc_then_rank key lt rank).

Lemma insert_desc_ranked (x : A) (l : list A) :
  ok (key x) -> Forall okA l ->
  Forall (fun y => rank x < rank y) l ->
  StronglySorted rankedR l ->
  StronglySorted rankedR (insert_desc key lt x l).
Proof.
  intros Hx Hl Hr Hs.
  induction Hs as [|y r Hs IH Hy]; simpl.
  - constructor; constructor.
  - inversion Hl as [|? ? Hoky Hokr]; subst.
    inversion Hr as [|? ? Hry Hrr]; subst.
    destruct (lt (key x) (key y)) eqn:Hxy.
    + constructor.
      * now apply IH.
      * apply insert_desc_Forall; [|exact Hy].
        split; [now apply lt_asym | now left].
    + constructor.
      * now constructor.
      * constructor; [split; [exact Hxy | now right]|].
        rewrite Forall_forall in Hy, Hokr, Hrr |- *.
        intros b Hb. split.
        -- apply (lt_negtrans (key x) (key y) (key b));
             [exact Hx | exact Hoky | now apply Hokr | exact Hxy
             | now apply Hy].
        -- right. now apply Hrr.
Qed.

Lemma sort_desc_ranked (l : list A) :
  Forall okA l ->
  StronglySorted (fun a b => rank a < rank b) l ->
  StronglySorted rankedR (sort_desc key lt l).
Proof.
  intros Hl Hs.
  induction Hs as [|x r Hs IH Hx]; simpl.
  - constructor.
  - inversion Hl; subst.
    apply insert_desc_ranked; auto.
    + now apply sort_desc_ok.
    + apply (Permutation_Forall (Permutation_sym (sort_desc_perm r)) Hx).
Qed.

End StableSortFacts.

(* ================================================================= *)
(** ** Facts about binary64 comparison and integer division *)

Module FloatFacts.
Import Float.

Ltac cmp_cases :=
  repeat match goal with
  | |- context [Pos.compare_cont Eq ?a ?b] =>
      change (Pos.compare_cont Eq a b) with (Pos.compare a b);
      destruct (Pos.compare_spec a b)
  | |- context [Z.compare ?a ?b] => destruct (Z.compare_spec a b)
  | H : context [Pos.compare_cont Eq ?a ?b] |- _ =>
      change (Pos.compare_cont Eq a b) with (Pos.compare a b) in H;
      destruct (Pos.compare_spec a b)
  | H : context [Z.compare ?a ?b] |- _ => destruct (Z.compare_spec a b)
  end;
  cbn in *; subst; try reflexivity; try discriminate; try lia.

Lemma ltb_irrefl (x : float) : ltb x x = false.
Proof.
  unfold ltb, SFltb.
  destruct x as [[|]|[|]| |[|] m e]; cbn; try reflexivity;
    rewrite Z.compare_refl;
    change (Pos.compare_cont Eq m m) with (Pos.compare m m);
    now rewrite Pos.compare_refl.
Qed.

Lemma ltb_trans (x y z : float) :
  ltb x y = true -> ltb y z = true -> ltb x z = true.
Proof.
  unfold ltb, SFltb.
  destruct x as [[|]|[|]| |[|] m1 e1], y as [[|]|[|]| |[|] m2 e2],
           z as [[|]|[|]| |[|] m3 e3];
    cbn; intros H1 H2; try reflexivity; try discriminate; cmp_cases.
Qed.

Lemma ltb_negtrans (x y z : float) :
  not_nan x -> not_nan y -> not_nan z ->
  ltb x y = false -> ltb y z = false -> ltb x z = false.
Proof.
  unfold ltb, SFltb, not_nan.
  destruct x as [[|]|[|]| |[|] m1 e1], y as [[|]|[|]| |[|] m2 e2],
           z as [[|]|[|]| |[|] m3 e3];
    cbn; intros N1 N2 N3 H1 H2; try reflexivity; try discriminate;
    cmp_cases.
Qed.

(** Among numbers, two floats tie exactly when [==] holds of them. *)
Lemma tied_eqb (x y : float) :
  not_nan x -> not_nan y -> tied ltb x y = SFeqb x y.
Proof.
  unfold tied, ltb, SFltb, SFeqb, not_nan.
  destruct x as [[|]|[|]| |[|] m1 e1], y as [[|]|[|]| |[|] m2 e2];
    cbn; intros N1 N2; try reflexivity; try discriminate;
    rewrite (Z.compare_antisym e1 e2);
    destruct (Z.compare e1 e2); cbn; try reflexivity;
    change (Pos.compare_cont Eq m1 m2) with (Pos.compare m1 m2);
    change (Pos.compare_cont Eq m2 m1) with (Pos.compare m2 m1);
    rewrite (Pos.compare_antisym m1 m2);
    destruct (Pos.compare m1 m2); reflexivity.
Qed.

(** Rounding keeps a non-negative mantissa non-negative, so it never
    yields a NaN. *)
Lemma shr_1_nonneg (mrs : shr_record) :
  (0 <= shr_m mrs)%Z -> (0 <= shr_m (shr_1 mrs))%Z.
Proof.
  destruct mrs as [m r s]; destruct m as [|[p|p|]|p]; cbn; lia.
Qed.

Lemma iter_shr_1_nonneg (p : positive) (mrs : shr_record) :
  (0 <= shr_m mrs)%Z -> (0 <= shr_m (iter_pos shr_1 p mrs))%Z.
Proof.
  revert mrs.
  induction p as [p IH|p IH|]; intros mrs H; cbn.
  - apply IH, IH. now apply shr_1_nonneg.
  - now apply IH, IH.
  - now apply shr_1_nonneg.
Qed.

Lemma shr_fexp_nonneg (m e : Z) (l : location) :
  (0 <= m)%Z -> (0 <= shr_m (fst (shr_fexp prec emax m e l)))%Z.
Proof.
  intros Hm. unfold shr_fexp, shr.
  assert (H0 : (0 <= shr_m (shr_record_of_loc m l))%Z)
    by (destruct l as [|[| |]]; exact Hm).
  destruct (fexp prec emax (Zdigits2 m + e) - e)%Z; cbn [fst];
    try exact H0.
  now apply iter_shr_1_nonneg.
Qed.

Lemma round_nearest_even_nonneg (m : Z) (l : location) :
  (0 <= m)%Z -> (0 <= round_nearest_even m l)%Z.
Proof.
  intros Hm. destruct l as [|[| |]]; cbn; try lia.
  destruct (Z.even m); lia.
Qed.

Lemma binary_round_aux_not_nan (s : bool) (m e : Z) (l : location) :
  (0 <= m)%Z -> not_nan (binary_round_aux prec emax s m e l).
Proof.
  intros Hm. unfold binary_round_aux.
  pose proof (shr_fexp_nonneg m e l Hm) as H1.
  destruct (shr_fexp prec emax m e l) as [mrs' e'].
  cbn [fst] in H1.
  pose proof (shr_fexp_nonneg _ e' loc_Exact
                (round_nearest_even_nonneg _ (loc_of_shr_record mrs') H1))
    as H2.
  destruct (shr_fexp prec emax
              (round_nearest_even (shr_m mrs') (loc_of_shr_record mrs'))
              e' loc_Exact) as [mrs'' e''].
  cbn [fst] in H2.
  destruct (shr_m mrs''); [reflexivity| |lia].
  now destruct (e'' <=? emax - prec)%Z.
Qed.

Lemma div_core_nonneg (m1 m2 : positive) (e1 e2 : Z) :
  (0 <= fst (fst (SFdiv_core_binary prec emax (Zpos m1) e1 (Zpos m2) e2)))%Z.
Proof.
  unfold SFdiv_core_binary.
  set (s := (e1 - e2 - _)%Z).
  set (m' := match s with Zpos _ => Z.shiftl (Zpos m1) s | Z0 => Zpos m1
                          | Zneg _ => 0%Z end).
  assert (Hm' : (0 <= m')%Z).
  { subst m'. destruct s; try lia. apply Z.shiftl_nonneg. lia. }
  pose proof (Z.div_pos m' (Zpos m2) Hm' eq_refl) as Hq.
  unfold Z.div in Hq.
  destruct (Z.div_eucl m' (Zpos m2)) as [q r]. exact Hq.
Qed.

(** A quotient of a count by a positive length is a number. *)
Lemma truediv_not_nan (a b : nat) :
  not_nan (truediv (Z.of_nat a) (Z.of_nat (S b))).
Proof.
  unfold truediv.
  change (Z.of_nat (S b)) with (Zpos (Pos.of_succ_nat b)).
  destruct (Z.of_nat a) as [|p|p] eqn:Ha; [reflexivity| |lia].
  cbn [exact_of_Z SFdiv xorb].
  pose proof (div_core_nonneg p (Pos.of_succ_nat b) 0 0) as Hq.
  destruct (SFdiv_core_binary prec emax (Zpos p) 0
              (Zpos (Pos.of_succ_nat b)) 0) as [[mz ez] lz].
  now apply binary_round_aux_not_nan.
Qed.

End FloatFacts.

(* ================================================================= *)
(** ** Scoring and ranking sentences *)

Lemma sentence_score_not_nan (word_scores : counter) (sentence : string) :
  Float.not_nan (sentence_score word_scores sentence).
Proof.
  unfold sentence_score.
  destruct (tokenize_words sentence) as [|w ws]; [reflexivity|].
  cbn [List.length]. apply FloatFacts.truediv_not_nan.
Qed.

Lemma score_sentences_not_nan (sentences : list string) (word_scores : counter) :
  Forall (fun item => Float.not_nan (snd item))
         (score_sentences sentences word_scores).
Proof.
  unfold score_sentences. rewrite Forall_map. apply Forall_forall.
  intros s _. apply sentence_score_not_nan.
Qed.

Lemma score_sentences_length (sentences : list string) (word_scores : counter) :
  List.length (score_sentences sentences word_scores) = List.length sentences.
Proof. unfold score_sentences. apply length_map. Qed.

Lemma score_sentences_texts (sentences : list string) (word_scores : counter) :
  map fst (score_sentences sentences word_scores) = sentences.
Proof.
  unfold score_sentences. rewrite map_map. cbn. apply map_id.
Qed.

Lemma sort_scored_ranked (scored : list (string * Float.float)) :
  Forall (fun item => Float.not_nan (snd item)) scored ->
  stably_ranked scored (sort_scored scored).
Proof.
  intros Hok. unfold stably_ranked, sort_scored. repeat split.
  - apply sort_desc_perm.
  - apply (sort_desc_sorted snd Float.ltb Float.not_nan).
    + intros k _. apply FloatFacts.ltb_irrefl.
    + intros a b c _ _ _. apply FloatFacts.ltb_trans.
    + apply FloatFacts.ltb_negtrans.
    + exact Hok.
  - intros k Hk. unfold same_score.
    apply (sort_desc_stable snd Float.ltb Float.not_nan).
    + apply FloatFacts.ltb_negtrans.
    + exact Hk.
    + exact Hok.
Qed.

Lemma sort_scored_length (scored : list (string * Float.float)) :
  List.length (sort_scored scored) = List.length scored.
Proof. apply sort_desc_length. Qed.

(** C4: [score_sentences] returns one pair per sentence, in input order;
    the score of a sentence without content words is exactly 0.0, and
    otherwise it is the sum of the table counts of its content words divided
    by their number. *)
Theorem score_sentences_mean (sentences : list string) (word_scores : counter) :
  List.length (score_sentences sentences word_scores) = List.length sentences
  /\ map fst (score_sentences sentences word_scores) = sentences
  /\ forall i sentence score,
       nth_error (score_sentences sentences word_scores) i
       = Some (sentence, score) ->
       nth_error sentences i = Some sentence
       /\ (tokenize_words sentence = [] -> score = Float.zero)
       /\ (tokenize_words sentence <> [] ->
           score = mean_count word_scores (tokenize_words sentence)).
Proof.
  split; [apply score_sentences_length|].
  split; [apply score_sentences_texts|].
  intros i sentence score H.
  unfold score_sentences in H.
  rewrite nth_error_map in H.
  destruct (nth_error sentences i) as [s|] eqn:Hs; [|discriminate].
  cbn in H. injection H as <- <-.
  split; [reflexivity|].
  unfold sentence_score, mean_count.
  destruct (tokenize_words s) as [|w ws].
  - split; [reflexivity | congruence].
  - split; [discriminate | reflexivity].
Qed.

Lemma score_sentences_mean_witness :
  nth_error ["The cat sat."; "Of the."; "The cat ran fast."] 2
  = Some "The cat ran fast."
  /\ Float.truediv 4 3
     = mean_count (Counter ["cat"; "sat"; "cat"; "ran"; "fast"])
         (tokenize_words "The cat ran fast.").
Proof.
  destruct (score_sentences_mean
              ["The cat sat."; "Of the."; "The cat ran fast."]
              (Counter ["cat"; "sat"; "cat"; "ran"; "fast"])) as [_ [_ H]].
  destruct (H 2 "The cat ran fast." (Float.truediv 4 3) eq_refl)
    as [Hnth [_ Hmean]].
  split; [exact Hnth|].
  apply Hmean. discriminate.
Defined.

(** C1, amended: for a limit that is not negative, [top_sentences] returns
    the sentence texts in descending order of score, sentences of equal
    score in their original order, cut to the first [limit] entries; a
    limit that is not below the number of sentences returns them all. *)
Theorem top_sentences_ranked_prefix (sentences : list string)
    (word_scores : counter) (limit : Z) :
  (0 <= limit)%Z ->
  first_limit_of_ranking sentences word_scores limit.
Proof.
  intros Hlimit.
  exists (sort_scored (score_sentences sentences word_scores)).
  split; [apply sort_scored_ranked, score_sentences_not_nan|].
  unfold top_sentences, PyStr.slice_to.
  destruct (Z.ltb_spec limit 0) as [Hneg|_]; [lia|].
  split; [reflexivity|].
  intros Hall. f_equal. apply firstn_all2.
  rewrite sort_scored_length, score_sentences_length. lia.
Qed.

Lemma top_sentences_ranked_prefix_witness :
  first_limit_of_ranking ["The cat sat."; "Of the."; "The cat ran fast."]
    (Counter ["cat"; "sat"; "cat"; "ran"; "fast"]) 2.
Proof.
  apply top_sentences_ranked_prefix. lia.
Defined.

(** C1 as stated fails at a negative limit: with two sentences and limit
    -1 the result has one sentence, which is not the first -1 entries of
    any ranking. *)
Lemma top_sentences_negative_limit_not_prefix :
  top_sentences ["Cats purr."; "Dogs bark."] [] (-1) = ["Cats purr."]
  /\ ~ first_limit_of_ranking ["Cats purr."; "Dogs bark."] [] (-1).
Proof.
  split; [reflexivity|].
  intros [ranked [_ [H _]]].
  cbn in H. discriminate.
Qed.

(** C10: for a limit [-m] with [m >= 1] and more than [m] sentences,
    [top_sentences] returns the ranking of all sentences without its last
    [m] entries, which is neither empty nor the whole ranking. *)
Theorem top_sentences_negative_limit_drops_last (sentences : list string)
    (word_scores : counter) (m : nat) :
  1 <= m -> m < List.length sentences ->
  let ranking :=
    map fst (sort_scored (score_sentences sentences word_scores)) in
  let result := top_sentences sentences word_scores (- Z.of_nat m) in
  (exists dropped, ranking = result ++ dropped /\ List.length dropped = m)
  /\ result = firstn (List.length sentences - m) ranking
  /\ result <> []
  /\ result <> ranking.
Proof.
  intros Hm Hlen ranking result.
  assert (Hrank : List.length ranking = List.length sentences).
  { subst ranking.
    now rewrite length_map, sort_scored_length, score_sentences_length. }
  assert (Hres : result = firstn (List.length sentences - m) ranking).
  { subst result ranking. unfold top_sentences, PyStr.slice_to.
    destruct (Z.ltb_spec (- Z.of_nat m) 0) as [_|Hge]; [|lia].
    rewrite sort_scored_length, score_sentences_length.
    replace (Z.to_nat (Z.of_nat (List.length sentences) + - Z.of_nat m))
      with (List.length sentences - m) by lia.
    symmetry. apply firstn_map. }
  assert (Hreslen : List.length result = List.length sentences - m).
  { rewrite Hres, length_firstn. lia. }
  split.
  - exists (skipn (List.length sentences - m) ranking). split.
    + rewrite Hres. symmetry. apply firstn_skipn.
    + rewrite length_skipn. lia.
  - split; [exact Hres|]. split.
    + intros E. rewrite E in Hreslen. cbn in Hreslen. lia.
    + intros E. rewrite E in Hreslen. lia.
Qed.

Lemma top_sentences_negative_limit_drops_last_witness :
  top_sentences ["The cat sat."; "Of the."; "The cat ran fast."]
    (Counter ["cat"; "sat"; "cat"; "ran"; "fast"]) (-1)
  = ["The cat sat."; "The cat ran fast."].
Proof.
  destruct (top_sentences_negative_limit_drops_last
              ["The cat sat."; "Of the."; "The cat ran fast."]
              (Counter ["cat"; "sat"; "cat"; "ran"; "fast"]) 1
              (le_n 1) (le_S _ _ (le_n 2))) as [_ [H _]].
  exact H.
Defined.

(* ================================================================= *)
(** ** Counters and keywords *)

Section ListFacts.
Context {A B : Type}.

Lemma StronglySorted_snoc (R : A -> A -> Prop) (l : list A) (x : A) :
  StronglySorted R l -> Forall (fun a => R a x) l ->
  StronglySorted R (l ++ [x]).
Proof.
  induction 1 as [|a l Hs IH Ha]; intros Hx; cbn.
  - constructor; constructor.
  - inversion Hx; subst. constructor.
    + now apply IH.
    + apply Forall_app. split; [exact Ha | now constructor].
Qed.

Lemma StronglySorted_weaken (R R' : A -> A -> Prop) (l : list A) :
  (forall a b, In a l -> In b l -> R a b -> R' a b) ->
  StronglySorted R l -> StronglySorted R' l.
Proof.
  intros HR Hs. induction Hs as [|a l Hs IH Ha].
  - constructor.
  - constructor.
    + apply IH. intros x y Hx Hy. apply HR; now right.
    + rewrite Forall_forall in Ha |- *. intros b Hb.
      apply HR; [now left | now right | now apply Ha].
Qed.

Lemma StronglySorted_map (f : A -> B) (R : B -> B -> Prop) (l : list A) :
  StronglySorted (fun a b => R (f a) (f b)) l ->
  StronglySorted R (map f l).
Proof.
  induction 1 as [|a l Hs IH Ha]; cbn; constructor; auto.
  rewrite Forall_map. exact Ha.
Qed.

Lemma StronglySorted_unmap (f : A -> B) (R : B -> B -> Prop) (l : list A) :
  StronglySorted R (map f l) ->
  StronglySorted (fun a b => R (f a) (f b)) l.
Proof.
  induction l as [|a l IH]; cbn; intros H; [constructor|].
  inversion H; subst. constructor; auto.
  now rewrite <- Forall_map.
Qed.

Lemma firstn_In (n : nat) (l : list A) (x : A) :
  In x (firstn n l) -> In x l.
Proof.
  revert n. induction l as [|a l IH]; intros [|n]; cbn; try tauto.
  intros [H|H]; [now left | right; now apply (IH n)].
Qed.

Lemma StronglySorted_firstn (R : A -> A -> Prop) (n : nat) (l : list A) :
  StronglySorted R l -> StronglySorted R (firstn n l).
Proof.
  intros Hs. revert n.
  induction Hs as [|a l Hs IH Ha]; intros [|n]; cbn; try constructor.
  - apply IH.
  - rewrite Forall_forall in Ha |- *. intros b Hb.
    apply Ha. now apply (firstn_In n).
Qed.

Lemma NoDup_firstn' (n : nat) (l : list A) : NoDup l -> NoDup (firstn n l).
Proof.
  intros H. rewrite <- (firstn_skipn n l) in H.
  now apply NoDup_app_remove_r in H.
Qed.

End ListFacts.

Lemma index_of_app_in (w : string) (pre post : list string) :
  In w pre -> index_of w (pre ++ post) = index_of w pre.
Proof.
  induction pre as [|x pre IH]; cbn; intros H; [contradiction|].
  destruct (String.eqb_spec x w) as [_|Hne]; [reflexivity|].
  destruct H as [H|H]; [contradiction|].
  now rewrite IH.
Qed.

Lemma index_of_in_lt (w : string) (words : list string) :
  In w words -> index_of w words < List.length words.
Proof.
  induction words as [|x r IH]; cbn; intros H; [contradiction|].
  destruct (String.eqb_spec x w) as [_|Hne]; [lia|].
  destruct H as [H|H]; [contradiction|].
  specialize (IH H). lia.
Qed.

Lemma index_of_snoc_new (w : string) (pre : list string) :
  ~ In w pre -> index_of w (pre ++ [w]) = List.length pre.
Proof.
  induction pre as [|x pre IH]; cbn; intros H.
  - now rewrite String.eqb_refl.
  - destruct (String.eqb_spec x w) as [E|_]; [tauto|].
    rewrite IH; tauto.
Qed.

Lemma counter_get_incr (w w' : string) (c : counter) :
  counter_get (counter_incr w c) w'
  = if String.eqb w w' then S (counter_get c w') else counter_get c w'.
Proof.
  induction c as [|[k n] r IH]; cbn.
  - destruct (String.eqb w w'); reflexivity.
  - destruct (String.eqb_spec k w) as [->|Hkw]; cbn.
    + destruct (String.eqb_spec w w'); reflexivity.
    + destruct (String.eqb_spec k w') as [->|Hkw'].
      * destruct (String.eqb_spec w w'); [congruence | reflexivity].
      * exact IH.
Qed.

Lemma counter_incr_keys_old (w : string) (c : counter) :
  In w (map fst c) -> map fst (counter_incr w c) = map fst c.
Proof.
  induction c as [|[k n] r IH]; cbn; intros H; [contradiction|].
  destruct (String.eqb_spec k w) as [->|Hkw]; [reflexivity|].
  cbn. f_equal. apply IH. destruct H; [contradiction | assumption].
Qed.

Lemma counter_incr_keys_new (w : string) (c : counter) :
  ~ In w (map fst c) -> map fst (counter_incr w c) = map fst c ++ [w].
Proof.
  induction c as [|[k n] r IH]; cbn; intros H; [reflexivity|].
  destruct (String.eqb_spec k w) as [->|Hkw]; [tauto|].
  cbn. f_equal. apply IH. tauto.
Qed.

Lemma Counter_snoc (pre : list string) (w : string) :
  Counter (pre ++ [w]) = counter_incr w (Counter pre).
Proof. unfold Counter. now rewrite fold_left_app. Qed.

(** [Counter(words)[w]] is the number of occurrences of [w]. *)
Lemma Counter_get (words : list string) (w : string) :
  counter_get (Counter words) w = occurrences words w.
Proof.
  unfold occurrences.
  induction words as [|x pre IH] using rev_ind; [reflexivity|].
  rewrite Counter_snoc, counter_get_incr, count_occ_app, IH. cbn.
  destruct (String.eqb_spec x w) as [->|Hne].
  - destruct (string_dec w w); [lia | contradiction].
  - destruct (string_dec x w); [contradiction | lia].
Qed.

(** The keys of [Counter(words)] are the words, each once, in the order of
    their first occurrence. *)
Lemma Counter_keys (words : list string) :
  (forall w, In w (map fst (Counter words)) <-> In w words)
  /\ NoDup (map fst (Counter words))
  /\ StronglySorted (fun a b => index_of a words < index_of b words)
       (map fst (Counter words)).
Proof.
  induction words as [|x pre [IHin [IHnd IHs]]] using rev_ind.
  - cbn. repeat split; try tauto; constructor.
  - rewrite Counter_snoc.
    destruct (in_dec string_dec x (map fst (Counter pre))) as [Hold|Hnew].
    + rewrite counter_incr_keys_old by exact Hold.
      split; [|split].
      * intros w. rewrite IHin, in_app_iff. cbn.
        split; [tauto|]. intros [H|[<-|[]]]; [exact H | now apply IHin].
      * exact IHnd.
      * apply (StronglySorted_weaken
                 (fun a b => index_of a pre < index_of b pre)); [|exact IHs].
        intros a b Ha Hb. apply IHin in Ha, Hb.
        now rewrite !index_of_app_in.
    + rewrite counter_incr_keys_new by exact Hnew.
      split; [|split].
      * intros w. rewrite !in_app_iff, IHin. tauto.
      * apply NoDup_app; [exact IHnd | repeat constructor; intros [] |].
        intros a Ha [<-|[]]. contradiction.
      * apply StronglySorted_snoc.
        -- apply (StronglySorted_weaken
                    (fun a b => index_of a pre < index_of b pre));
             [|exact IHs].
           intros a b Ha Hb. apply IHin in Ha, Hb.
           now rewrite !index_of_app_in.
        -- apply Forall_forall. intros a Ha. apply IHin in Ha.
           rewrite index_of_app_in by exact Ha.
           rewrite index_of_snoc_new by (rewrite <- IHin; exact Hnew).
           now apply index_of_in_lt.
Qed.

Lemma counter_get_item (c : counter) (k : string) (n : nat) :
  NoDup (map fst c) -> In (k, n) c -> counter_get c k = n.
Proof.
  induction c as [|[k' n'] r IH]; cbn; intros Hnd Hin; [contradiction|].
  inversion Hnd as [|? ? Hk' Hr]; subst.
  destruct Hin as [E|Hin].
  - injection E as -> ->. now rewrite String.eqb_refl.
  - destruct (String.eqb_spec k' k) as [->|_].
    + exfalso. apply Hk'. now apply (in_map fst) in Hin.
    + now apply IH.
Qed.

(** Every item of [Counter(words)] carries the number of occurrences of its
    word. *)
Lemma Counter_items (words : list string) :
  Forall (fun item => snd item = occurrences words (fst item)) (Counter words).
Proof.
  apply Forall_forall. intros [k n] Hin. cbn.
  rewrite <- Counter_get. symmetry.
  apply counter_get_item; [apply Counter_keys | exact Hin].
Qed.

Lemma Counter_length (words : list string) :
  List.length (Counter words) = distinct_count words.
Proof.
  unfold distinct_count.
  rewrite <- (length_map fst).
  apply Permutation_length, NoDup_Permutation.
  - apply Counter_keys.
  - apply NoDup_nodup.
  - intros w. rewrite nodup_In. apply Counter_keys.
Qed.

Lemma most_common_ranked (words : list string) (n : Z) :
  StronglySorted (keyword_before words) (map fst (most_common (Counter words) n)).
Proof.
  unfold most_common.
  set (rank := fun item : string * nat => index_of (fst item) words).
  pose proof (Counter_keys words) as [Hin [_ Hs]].
  assert (Hsorted :
    StronglySorted (desc_then_rank snd Nat.ltb rank)
      (sort_desc snd Nat.ltb (Counter words))).
  { apply (sort_desc_ranked snd Nat.ltb (fun _ => True)).
    - intros k _. apply Nat.ltb_irrefl.
    - intros a b c _ _ _. rewrite !Nat.ltb_lt. lia.
    - intros a b c _ _ _. rewrite !Nat.ltb_ge. lia.
    - apply Forall_forall. intros; exact I.
    - now apply StronglySorted_unmap in Hs. }
  apply StronglySorted_map, StronglySorted_firstn.
  apply (StronglySorted_weaken (desc_then_rank snd Nat.ltb rank));
    [|exact Hsorted].
  intros a b Ha Hb [Hge Htie].
  pose proof (Counter_items words) as Hitems.
  rewrite Forall_forall in Hitems.
  assert (Ha' : In a (Counter words))
    by (revert Ha; apply Permutation_in, sort_desc_perm).
  assert (Hb' : In b (Counter words))
    by (revert Hb; apply Permutation_in, sort_desc_perm).
  apply Hitems in Ha', Hb'.
  unfold keyword_before. rewrite <- Ha', <- Hb'.
  apply Nat.ltb_ge in Hge.
  destruct Htie as [Hgt|Hrank].
  - apply Nat.ltb_lt in Hgt. now left.
  - destruct (Nat.eq_dec (snd a) (snd b)) as [E|NE].
    + right. split; [exact E | exact Hrank].
    + left. lia.
Qed.

(** C3: for a limit [k >= 0], [top_keywords] returns at most
    [min(k, number of distinct words)] entries, pairwise distinct, in
    descending order of occurrence count, words of equal count in the order
    of their first occurrence. *)
Theorem top_keywords_ranked (words : list string) (k : Z) :
  (0 <= k)%Z ->
  List.length (top_keywords words k)
    <= Nat.min (Z.to_nat k) (distinct_count words)
  /\ NoDup (top_keywords words k)
  /\ StronglySorted (keyword_before words) (top_keywords words k).
Proof.
  intros Hk. unfold top_keywords. split; [|split].
  - unfold most_common.
    rewrite length_map, length_firstn, sort_desc_length, Counter_length.
    lia.
  - unfold most_common. rewrite <- firstn_map. apply NoDup_firstn'.
    apply (Permutation_NoDup
             (l := map fst (Counter words))); [|apply Counter_keys].
    apply Permutation_map, Permutation_sym, sort_desc_perm.
  - apply most_common_ranked.
Qed.

Lemma top_keywords_ranked_witness :
  List.length (top_keywords ["dog"; "cat"; "sat"; "cat"; "dog"; "bird"] 3)
    <= Nat.min 3 (distinct_count ["dog"; "cat"; "sat"; "cat"; "dog"; "bird"])
  /\ NoDup (top_keywords ["dog"; "cat"; "sat"; "cat"; "dog"; "bird"] 3)
  /\ StronglySorted
       (keyword_before ["dog"; "cat"; "sat"; "cat"; "dog"; "bird"])
       (top_keywords ["dog"; "cat"; "sat"; "cat"; "dog"; "bird"] 3).
Proof.
  apply (top_keywords_ranked
           ["dog"; "cat"; "sat"; "cat"; "dog"; "bird"] 3).
  lia.
Defined.

Example top_keywords_example :
  top_keywords ["dog"; "cat"; "sat"; "cat"; "dog"; "bird"] 3
  = ["dog"; "cat"; "sat"].
Proof. reflexivity. Qed.

(* ================================================================= *)
(** ** Whitespace, cleaning and splitting *)

Module StrFacts.
Import PyStr Regex.

Lemma single_spaced_cons (c : ascii) (r : string) :
  single_spaced (String c r) = true ->
  single_spaced r = true
  /\ (isspace c = true -> exists d r', r = String d r' /\ isspace d = false).
Proof.
  cbn [single_spaced]. intros H.
  apply andb_prop in H. destruct H as [H Hr]. split; [exact Hr|].
  intros Hc. rewrite Hc in H. cbn in H.
  destruct r as [|d r']; [discriminate|].
  exists d, r'. split; [reflexivity|].
  cbn in H. now apply negb_true_iff in H.
Qed.

Lemma single_spaced_no_trailing (s : string) :
  single_spaced s = true -> ends_with_space s = false.
Proof.
  induction s as [|c r IH]; [reflexivity|].
  intros H. apply single_spaced_cons in H. destruct H as [Hr Hc].
  cbn [ends_with_space]. destruct r as [|d r'].
  - destruct (isspace c) eqn:E; [|reflexivity].
    destruct (Hc eq_refl) as [? [? [? _]]]. discriminate.
  - now apply IH.
Qed.

Lemma single_spaced_no_double (s : string) :
  single_spaced s = true -> has_double_space s = false.
Proof.
  induction s as [|c r IH]; [reflexivity|].
  intros H. apply single_spaced_cons in H. destruct H as [Hr Hc].
  cbn [has_double_space]. rewrite (IH Hr), orb_false_r.
  destruct (isspace c) eqn:E; [|reflexivity].
  destruct (Hc eq_refl) as [d [r' [-> Hd]]]. cbn. exact Hd.
Qed.

(** *** [strip] *)

Lemma rstrip_no_trailing (s : string) : ends_with_space (rstrip s) = false.
Proof.
  induction s as [|c r IH]; [reflexivity|].
  cbn [rstrip]. destruct (rstrip r) as [|d r'] eqn:E.
  - destruct (isspace c) eqn:Hc; [reflexivity|]. cbn. exact Hc.
  - exact IH.
Qed.

Lemma rstrip_keeps_start (s : string) :
  starts_with_space s = false -> starts_with_space (rstrip s) = false.
Proof.
  destruct s as [|c r]; [reflexivity|].
  cbn [starts_with_space rstrip]. intros Hc.
  destruct (rstrip r); [rewrite Hc|]; exact Hc.
Qed.

Lemma lstrip_no_leading (s : string) : starts_with_space (lstrip s) = false.
Proof.
  induction s as [|c r IH]; [reflexivity|].
  cbn [lstrip]. destruct (isspace c) eqn:Hc; [exact IH|]. exact Hc.
Qed.

Lemma strip_shape (s : string) :
  starts_with_space (strip s) = false /\ ends_with_space (strip s) = false.
Proof.
  unfold strip. split.
  - apply rstrip_keeps_start, lstrip_no_leading.
  - apply rstrip_no_trailing.
Qed.

Lemma lstrip_fixed (s : string) : starts_with_space s = false -> lstrip s = s.
Proof.
  destruct s as [|c r]; [reflexivity|]. cbn. now intros ->.
Qed.

Lemma rstrip_fixed (s : string) : ends_with_space s = false -> rstrip s = s.
Proof.
  induction s as [|c r IH]; [reflexivity|].
  cbn [ends_with_space rstrip]. destruct r as [|d r'].
  - cbn. now intros ->.
  - intros H. rewrite (IH H). reflexivity.
Qed.

Lemma strip_fixed (s : string) :
  starts_with_space s = false -> ends_with_space s = false -> strip s = s.
Proof.
  intros H1 H2. unfold strip. rewrite (lstrip_fixed s H1).
  now apply rstrip_fixed.
Qed.

(** *** [sub_ws] *)

Lemma sub_ws_spaces_only (b : bool) (s : string) :
  spaces_only (sub_ws b s) = true.
Proof.
  unfold spaces_only. revert b.
  induction s as [|c r IH]; intros b; [reflexivity|].
  cbn [sub_ws]. destruct (isspace c) eqn:Hc.
  - destruct b; [apply IH|]. cbn. apply IH.
  - cbn [all_chars]. rewrite Hc. cbn. apply IH.
Qed.

Lemma ends_with_space_cons (c : ascii) (r : string) :
  ends_with_space (String c r) = false ->
  ends_with_space r = false /\ (isspace c = true -> r <> EmptyString).
Proof.
  cbn [ends_with_space]. destruct r as [|d r'].
  - intros H. split; [reflexivity|]. congruence.
  - intros H. split; [exact H|]. discriminate.
Qed.

(** Inside a run, the substitution of a text that does not end in
    whitespace starts with the first character that is not whitespace. *)
Lemma sub_ws_in_run_start (s : string) :
  s <> EmptyString -> ends_with_space s = false ->
  exists d t, sub_ws true s = String d t /\ isspace d = false.
Proof.
  induction s as [|c r IH]; [congruence|].
  intros _ H. apply ends_with_space_cons in H. destruct H as [Hr Hne].
  cbn [sub_ws]. destruct (isspace c) eqn:Hc.
  - apply IH; auto.
  - now exists c, (sub_ws false r).
Qed.

Lemma sub_ws_single_spaced (b : bool) (s : string) :
  ends_with_space s = false -> single_spaced (sub_ws b s) = true.
Proof.
  revert b. induction s as [|c r IH]; intros b H; [reflexivity|].
  apply ends_with_space_cons in H. destruct H as [Hr Hne].
  cbn [sub_ws]. destruct (isspace c) eqn:Hc.
  - destruct b; [now apply IH|].
    cbn [single_spaced]. rewrite (IH true Hr), andb_true_r.
    destruct (sub_ws_in_run_start r (Hne eq_refl) Hr) as [d [t [-> Hd]]].
    cbn. rewrite Hd. apply orb_true_r.
  - cbn [single_spaced]. rewrite Hc. cbn. now apply IH.
Qed.

Lemma sub_ws_no_leading (s : string) :
  starts_with_space s = false -> starts_with_space (sub_ws false s) = false.
Proof.
  destruct s as [|c r]; [reflexivity|].
  cbn. intros Hc. rewrite Hc. exact Hc.
Qed.

Lemma sub_ws_fixed (b : bool) (s : string) :
  single_spaced s = true -> spaces_only s = true ->
  (b = true -> starts_with_space s = false) ->
  sub_ws b s = s.
Proof.
  unfold spaces_only. revert b.
  induction s as [|c r IH]; intros b Hs Ho Hb; [reflexivity|].
  apply single_spaced_cons in Hs. destruct Hs as [Hr Hc].
  cbn [all_chars] in Ho. apply andb_prop in Ho. destruct Ho as [Hco Hro].
  cbn [sub_ws]. destruct (isspace c) eqn:E.
  - destruct b; [cbn in Hb; rewrite E in Hb; now specialize (Hb eq_refl)|].
    cbn in Hco. apply Nat.eqb_eq in Hco.
    assert (c = " "%char) as ->.
    { rewrite <- (ascii_nat_embedding c). unfold code in Hco.
      now rewrite Hco. }
    f_equal. apply IH; auto.
    intros _. destruct (Hc eq_refl) as [d [r' [-> Hd]]]. exact Hd.
  - f_equal. apply IH; auto. discriminate.
Qed.

Lemma cleaned_shape (text : string) :
  starts_with_space (cleaned text) = false
  /\ single_spaced (cleaned text) = true
  /\ spaces_only (cleaned text) = true.
Proof.
  unfold cleaned. destruct (strip_shape text) as [H1 H2].
  split; [now apply sub_ws_no_leading|].
  split; [now apply sub_ws_single_spaced | apply sub_ws_spaces_only].
Qed.

Lemma cleaned_fixed (s : string) :
  starts_with_space s = false -> single_spaced s = true ->
  spaces_only s = true -> cleaned s = s.
Proof.
  intros H1 H2 H3. unfold cleaned.
  rewrite strip_fixed; auto using single_spaced_no_trailing.
  apply sub_ws_fixed; auto.
Qed.

(** *** [split_at_terminal] *)

Lemma split_nonempty (st : split_state) (s : string) :
  split_at_terminal st s <> [].
Proof.
  revert st. induction s as [|c r IH]; intros st; cbn; [discriminate|].
  destruct (isspace c).
  - destruct st; try discriminate.
    + specialize (IH Plain).
      destruct (split_at_terminal Plain r); [contradiction | discriminate].
    + apply IH.
  - set (st' := if is_terminal c then AfterTerm else Plain).
    specialize (IH st').
    destruct (split_at_terminal st' r); [contradiction | discriminate].
Qed.

Lemma join_push (sep : string) (c : ascii) (l : list string) :
  l <> [] -> join sep (push c l) = String c (join sep l).
Proof.
  destruct l as [|p [|q ps]]; [congruence | reflexivity | reflexivity].
Qed.

Lemma join_cons (sep p : string) (l : list string) :
  l <> [] -> join sep (p :: l) = (p ++ sep ++ join sep l)%string.
Proof. destruct l; [congruence | reflexivity]. Qed.

(** On a text with single spaces, joining the pieces with a space gives
    the text back. *)
Lemma join_split (st : split_state) (s : string) :
  single_spaced s = true -> spaces_only s = true ->
  (st = InSep -> starts_with_space s = false) ->
  join SPACE (split_at_terminal st s) = s.
Proof.
  unfold spaces_only. revert st.
  induction s as [|c r IH]; intros st Hs Ho Hst; [reflexivity|].
  apply single_spaced_cons in Hs. destruct Hs as [Hr Hc].
  cbn [all_chars] in Ho. apply andb_prop in Ho. destruct Ho as [Hco Hro].
  cbn [split_at_terminal]. destruct (isspace c) eqn:E.
  - destruct (Hc eq_refl) as [d [r' [Er Hd]]].
    cbn in Hco. apply Nat.eqb_eq in Hco.
    assert (c = " "%char) as ->.
    { rewrite <- (ascii_nat_embedding c). unfold code in Hco.
      now rewrite Hco. }
    destruct st.
    + rewrite join_push by apply split_nonempty.
      f_equal. apply IH; auto. discriminate.
    + rewrite join_cons by apply split_nonempty.
      cbn. f_equal. apply IH; auto.
      intros _. rewrite Er. exact Hd.
    + specialize (Hst eq_refl). cbn in Hst. congruence.
  - rewrite join_push by apply split_nonempty.
    f_equal. apply IH; auto.
    destruct (is_terminal c); discriminate.
Qed.

Lemma tidy_piece_sentence (p : string) : tidy_piece p -> tidy_sentence p.
Proof.
  intros [H1 [H2 H3]]. repeat split; auto.
  - now apply single_spaced_no_trailing.
  - now apply single_spaced_no_double.
Qed.

Lemma split_pieces (st : split_state) (s : string) :
  single_spaced s = true ->
  (st = InSep -> starts_with_space s = false) ->
  exists p ps,
    split_at_terminal st s = p :: ps
    /\ Forall tidy_piece ps
    /\ single_spaced p = true
    /\ (starts_with_space p = true ->
        starts_with_space s = true /\ st = Plain)
    /\ (p = EmptyString ->
        s = EmptyString \/ (st = AfterTerm /\ starts_with_space s = true)).
Proof.
  revert st. induction s as [|c r IH]; intros st Hs Hst.
  - exists EmptyString, []. cbn. repeat split; auto; discriminate.
  - apply single_spaced_cons in Hs. destruct Hs as [Hr Hc].
    cbn [split_at_terminal]. destruct (isspace c) eqn:E.
    + destruct (Hc eq_refl) as [d [r' [Er Hd]]].
      assert (Hstart : starts_with_space r = false)
        by (rewrite Er; exact Hd).
      destruct st.
      * destruct (IH Plain Hr) as [p [ps [Ep [Hps [Hp [Hp1 Hp2]]]]]];
          [discriminate|].
        rewrite Ep. exists (String c p), ps. cbn [push].
        split; [reflexivity|]. split; [exact Hps|].
        split; [|split; [cbn; auto | discriminate]].
        cbn [single_spaced]. rewrite Hp, andb_true_r.
        destruct p as [|e p'].
        -- destruct (Hp2 eq_refl) as [H|[H _]]; [|discriminate].
           rewrite Er in H. discriminate.
        -- cbn. destruct (isspace e) eqn:Ee.
           ++ destruct (Hp1 Ee) as [H _]. congruence.
           ++ apply orb_true_r.
      * destruct (IH InSep Hr) as [p [ps [Ep [Hps [Hp [Hp1 Hp2]]]]]];
          [auto|].
        rewrite Ep. exists EmptyString, (p :: ps).
        split; [reflexivity|]. split.
        -- constructor; [|exact Hps]. split; [|split; [|exact Hp]].
           ++ intros H. destruct (Hp2 H) as [H'|[H' _]]; [|discriminate].
              rewrite Er in H'. discriminate.
           ++ destruct (starts_with_space p); [|reflexivity].
              destruct (Hp1 eq_refl) as [_ H]. discriminate.
        -- split; [reflexivity|]. split; [discriminate|].
           intros _. right. split; [reflexivity|]. exact E.
      * specialize (Hst eq_refl). cbn in Hst. congruence.
    + set (st' := if is_terminal c then AfterTerm else Plain).
      destruct (IH st' Hr) as [p [ps [Ep [Hps [Hp _]]]]].
      { subst st'. destruct (is_terminal c); discriminate. }
      rewrite Ep. exists (String c p), ps. cbn [push].
      split; [reflexivity|]. split; [exact Hps|].
      split; [cbn [single_spaced]; now rewrite E, Hp|].
      split; [cbn; congruence | discriminate].
Qed.

Lemma split_sentences_unfold (text : string) :
  split_sentences text
  = if is_empty (cleaned text) then []
    else split_at_terminal Plain (cleaned text).
Proof. reflexivity. Qed.

Lemma split_pieces_tidy (text : string) :
  Forall tidy_piece (split_sentences text).
Proof.
  rewrite split_sentences_unfold.
  destruct (cleaned_shape text) as [H1 [H2 _]].
  destruct (cleaned text) as [|c r] eqn:E; [constructor|].
  cbn [is_empty].
  destruct (split_pieces Plain (String c r) H2)
    as [p [ps [Ep [Hps [Hp [Hp1 Hp2]]]]]]; [discriminate|].
  rewrite Ep. constructor; [|exact Hps].
  split; [|split; [|exact Hp]].
  - intros H. destruct (Hp2 H) as [H'|[H' _]]; discriminate.
  - destruct (starts_with_space p); [|reflexivity].
    destruct (Hp1 eq_refl) as [H _]. congruence.
Qed.

End StrFacts.

(** C9: every sentence that [split_sentences] returns is non-empty, has no
    whitespace at either end and no two whitespace characters in a row. *)
Theorem split_sentences_tidy (text : string) :
  Forall tidy_sentence (split_sentences text).
Proof.
  eapply Forall_impl; [|apply StrFacts.split_pieces_tidy].
  apply StrFacts.tidy_piece_sentence.
Qed.

(** C8: splitting the sentences of a text joined by single spaces gives the
    same sentences again. *)
Theorem split_sentences_join_idempotent (text : string) :
  split_sentences (PyStr.join " " (split_sentences text))
  = split_sentences text.
Proof.
  rewrite (StrFacts.split_sentences_unfold text).
  destruct (StrFacts.cleaned_shape text) as [H1 [H2 H3]].
  destruct (cleaned text) as [|c r] eqn:E; [reflexivity|].
  cbn [PyStr.is_empty].
  change (String " "%char EmptyString) with SPACE.
  rewrite StrFacts.join_split by (auto; discriminate).
  rewrite StrFacts.split_sentences_unfold.
  rewrite StrFacts.cleaned_fixed by assumption.
  reflexivity.
Qed.

(* ================================================================= *)
(** ** Tokens *)

Module TokenFacts.
Import PyStr Regex.

Ltac each_char c := destruct c as [[] [] [] [] [] [] [] []]; reflexivity.

Lemma lower_char_not_upper (c : ascii) : is_upper (lower_char c) = false.
Proof. each_char c. Qed.

Lemma lower_char_idempotent (c : ascii) :
  lower_char (lower_char c) = lower_char c.
Proof. each_char c. Qed.

Lemma lower_word_char_iff (c : ascii) :
  is_word_char c && negb (is_upper c) = is_lower_word_char c.
Proof. each_char c. Qed.

Lemma lower_fixed_char (c : ascii) :
  is_upper c = false -> is_word_char c = true -> lower_char c = c.
Proof.
  destruct c as [[] [] [] [] [] [] [] []]; cbn; intros H1 H2;
    try reflexivity; discriminate.
Qed.

Lemma lower_no_upper (s : string) : some_char is_upper (lower s) = false.
Proof.
  induction s as [|c r IH]; [reflexivity|].
  cbn. now rewrite lower_char_not_upper, IH.
Qed.

(** The runs of a text without capitals are made of [[a-z']]. *)
Lemma word_runs_chars (s : string) :
  some_char is_upper s = false ->
  Forall lower_word_chars (word_runs s).
Proof.
  unfold lower_word_chars.
  induction s as [|c r IH]; cbn [some_char word_runs]; intros H.
  - repeat constructor.
  - apply orb_false_elim in H. destruct H as [Hc Hr].
    specialize (IH Hr).
    destruct (is_word_char c) eqn:Hw.
    + destruct (word_runs r) as [|p ps]; cbn [push].
      * repeat constructor. cbn.
        now rewrite <- lower_word_char_iff, Hw, Hc.
      * inversion IH; subst. constructor; [|assumption].
        cbn. rewrite <- lower_word_char_iff, Hw, Hc. assumption.
    + constructor; [reflexivity | exact IH].
Qed.

Lemma lower_word_chars_token (w : string) :
  lower_word_chars w ->
  all_chars is_word_char w = true /\ lower_cased w.
Proof.
  unfold lower_word_chars, lower_cased.
  induction w as [|c r IH]; cbn; intros H; [auto|].
  apply andb_prop in H. destruct H as [Hc Hr].
  destruct (IH Hr) as [H1 [H2 H3]].
  rewrite <- lower_word_char_iff in Hc.
  apply andb_prop in Hc. destruct Hc as [Hw Hu].
  apply negb_true_iff in Hu.
  rewrite Hw, H1, H2, H3, Hu.
  rewrite (lower_fixed_char c Hu Hw). auto.
Qed.

End TokenFacts.

(** C5, amended: every token that [tokenize_words] emits is a lower-cased
    string that matches [[A-Za-z']{2,}], is not a stop word, and has no
    character outside [[a-z']]. *)
Theorem tokenize_words_content_tokens (text : string) :
  Forall (fun w => content_token w /\ lower_word_chars w)
         (tokenize_words text).
Proof.
  unfold tokenize_words, Regex.findall_words.
  pose proof (TokenFacts.word_runs_chars (PyStr.lower text)
                (TokenFacts.lower_no_upper text)) as H.
  rewrite Forall_forall in H |- *.
  intros w Hw.
  apply filter_In in Hw. destruct Hw as [Hw Hstop].
  apply filter_In in Hw. destruct Hw as [Hw Hlen].
  apply negb_true_iff in Hstop. apply Nat.leb_le in Hlen.
  specialize (H w Hw).
  destruct (TokenFacts.lower_word_chars_token w H) as [H1 H2].
  repeat split; auto; apply H2.
Qed.

(** C5 as stated fails: a run of apostrophes is emitted as a token although
    it has no letter. *)
Lemma tokenize_words_apostrophes_token :
  tokenize_words "''" = ["''"]
  /\ ~ Forall alphabetic_content_token (tokenize_words "''").
Proof.
  split; [reflexivity|].
  intros H. inversion H as [|? ? [_ Hletter] _]; subst.
  discriminate.
Qed.

(* ================================================================= *)
(** ** The summary builder *)

Lemma top_sentences_nil (word_scores : counter) (limit : Z) :
  top_sentences [] word_scores limit = [].
Proof.
  unfold top_sentences, PyStr.slice_to. cbn.
  destruct (limit <? 0)%Z; now rewrite firstn_nil.
Qed.

Lemma top_keywords_nil (limit : Z) : top_keywords [] limit = [].
Proof.
  unfold top_keywords, most_common. cbn. now rewrite firstn_nil.
Qed.

Lemma page_note_empty (keyword_count : Z) (index : nat) :
  page_note keyword_count index "" = empty_note index.
Proof.
  unfold page_note, empty_note.
  change (split_sentences "") with (@nil string).
  change (tokenize_words "") with (@nil string).
  now rewrite top_sentences_nil, top_keywords_nil.
Qed.

Lemma page_notes_from_empty (keyword_count : Z) (n index : nat) :
  page_notes_from keyword_count index (repeat "" n)
  = map empty_note (seq index n).
Proof.
  revert index. induction n as [|n IH]; intros index; [reflexivity|].
  cbn [repeat page_notes_from seq map].
  now rewrite page_note_empty, IH.
Qed.

(** Joining empty pages gives line feeds only. *)
Lemma join_empty_pages (n : nat) :
  all_chars (fun c => PyStr.code c =? 10) (PyStr.join NEWLINE (repeat "" n))
  = true.
Proof.
  destruct n as [|n]; [reflexivity|].
  induction n as [|n IH]; [reflexivity|].
  change (repeat "" (S (S n))) with ("" :: repeat "" (S n)).
  cbn [repeat] in IH |- *. cbn [PyStr.join] in IH |- *.
  exact IH.
Qed.

Lemma line_feeds_no_sentence (s : string) :
  all_chars (fun c => PyStr.code c =? 10) s = true -> split_sentences s = [].
Proof.
  intros H. rewrite StrFacts.split_sentences_unfold.
  assert (E : PyStr.lstrip s = "").
  { induction s as [|c r IH]; [reflexivity|].
    cbn in H. apply andb_prop in H. destruct H as [Hc Hr].
    apply Nat.eqb_eq in Hc. cbn [PyStr.lstrip].
    unfold PyStr.isspace. rewrite Hc. cbn. now apply IH. }
  unfold cleaned, PyStr.strip. now rewrite E.
Qed.

Lemma line_feeds_no_word (s : string) :
  all_chars (fun c => PyStr.code c =? 10) s = true -> tokenize_words s = [].
Proof.
  intros H. unfold tokenize_words, Regex.findall_words.
  assert (E : filter (fun w => 2 <=? String.length w)
                (Regex.word_runs (PyStr.lower s)) = []).
  { induction s as [|c r IH]; [reflexivity|].
    cbn in H. apply andb_prop in H. destruct H as [Hc Hr].
    apply Nat.eqb_eq in Hc.
    assert (c = ascii_of_nat 10) as ->.
    { rewrite <- (ascii_nat_embedding c). unfold PyStr.code in Hc.
      now rewrite Hc. }
    cbn. now apply IH. }
  now rewrite E.
Qed.

(** C6: on [n] empty pages [build_summary] returns an empty overall summary,
    no key points, and [n] notes in page order, each with the summary
    "(No extractable text)" and no keywords. *)
Theorem build_summary_empty_pages (n : nat) (summary_sentences keyword_count : Z) :
  build_summary (repeat "" n) summary_sentences keyword_count
  = {| overall_summary := [];
       key_points := [];
       page_notes := map empty_note (seq 1 n) |}.
Proof.
  unfold build_summary.
  rewrite (line_feeds_no_sentence _ (join_empty_pages n)).
  rewrite (line_feeds_no_word _ (join_empty_pages n)).
  now rewrite top_sentences_nil, top_keywords_nil, page_notes_from_empty.
Qed.

Example build_summary_three_empty_pages :
  build_summary [""; ""; ""] 5 10
  = {| overall_summary := [];
       key_points := [];
       page_notes :=
         [ {| page := 1; summary := "(No extractable text)"; keywords := [] |};
           {| page := 2; summary := "(No extractable text)"; keywords := [] |};
           {| page := 3; summary := "(No extractable text)"; keywords := [] |} ]
    |}.
Proof. reflexivity. Qed.

Lemma page_notes_from_nth (keyword_count : Z) (index : nat)
    (page_texts : list string) (i : nat) :
  nth_error (page_notes_from keyword_count index page_texts) i
  = option_map (page_note keyword_count (index + i)) (nth_error page_texts i).
Proof.
  revert index i.
  induction page_texts as [|text rest IH]; intros index [|i]; cbn;
    try reflexivity.
  - now rewrite Nat.add_0_r.
  - rewrite IH. now rewrite Nat.add_succ_r.
Qed.

Lemma page_notes_from_length (keyword_count : Z) (index : nat)
    (page_texts : list string) :
  List.length (page_notes_from keyword_count index page_texts)
  = List.length page_texts.
Proof.
  revert index. induction page_texts as [|text rest IH]; intros index; cbn;
    [reflexivity | now rewrite IH].
Qed.

Lemma filter_head_split {A : Type} (f : A -> bool) (l : list A) (x : A)
    (t : list A) :
  filter f l = x :: t ->
  exists l1 l2, l = l1 ++ x :: l2 /\ Forall (fun y => f y = false) l1.
Proof.
  induction l as [|a l IH]; cbn; [discriminate|].
  destruct (f a) eqn:Ha.
  - intros E. injection E as -> _. exists [], l. split; [reflexivity|].
    constructor.
  - intros E. destruct (IH E) as [l1 [l2 [-> H1]]].
    exists (a :: l1), l2. split; [reflexivity|]. now constructor.
Qed.

(** The head of the ranking is the first sentence of the highest score. *)
Lemma sort_scored_head (sentences : list string) (word_scores : counter) :
  sentences <> [] ->
  exists best rest before after,
    sort_scored (score_sentences sentences word_scores)
    = (best, sentence_score word_scores best) :: rest
    /\ sentences = before ++ best :: after
    /\ Forall (fun s => Float.ltb (sentence_score word_scores s)
                          (sentence_score word_scores best) = true) before
    /\ Forall (fun s => Float.ltb (sentence_score word_scores best)
                          (sentence_score word_scores s) = false) after.
Proof.
  intros Hne.
  set (scored := score_sentences sentences word_scores).
  pose proof (score_sentences_not_nan sentences word_scores) as Hok.
  fold scored in Hok.
  destruct (sort_scored_ranked scored Hok) as [Hperm [Hsorted Hstable]].
  destruct (sort_scored scored) as [|[best k0] rest] eqn:E.
  { apply Permutation_length in Hperm. subst scored.
    rewrite score_sentences_length in Hperm.
    destruct sentences; [congruence | discriminate]. }
  assert (Hk0 : k0 = sentence_score word_scores best).
  { assert (Hin : In (best, k0) scored)
      by (apply (Permutation_in _ Hperm); now left).
    subst scored. unfold score_sentences in Hin.
    apply in_map_iff in Hin. destruct Hin as [s [Es _]]. congruence. }
  assert (Hnan : Float.not_nan k0)
    by (rewrite Hk0; apply sentence_score_not_nan).
  assert (Hmax : forall item, In item scored ->
                   Float.ltb k0 (snd item) = false).
  { intros item Hin.
    apply (Permutation_in _ (Permutation_sym Hperm)) in Hin.
    destruct Hin as [<-|Hin]; [apply FloatFacts.ltb_irrefl|].
    inversion Hsorted as [|? ? _ Hall]; subst.
    rewrite Forall_forall in Hall. now apply Hall. }
  specialize (Hstable k0 Hnan).
  cbn [filter] in Hstable.
  assert (Hself : same_score k0 (best, k0) = true).
  { unfold same_score, tied. cbn. now rewrite FloatFacts.ltb_irrefl. }
  rewrite Hself in Hstable. symmetry in Hstable.
  destruct (filter_head_split _ _ _ _ Hstable) as [l1 [l2 [Hsplit Hl1]]].
  unfold scored, score_sentences in Hsplit.
  apply map_eq_app in Hsplit.
  destruct Hsplit as [before [tail [Hs [Hbefore Htail]]]].
  apply map_eq_cons in Htail.
  destruct Htail as [b [after [-> [Hb Hafter]]]].
  injection Hb as -> _.
  exists best, rest, before, after.
  split; [now rewrite Hk0|]. split; [exact Hs|].
  assert (Hscore : forall s, In s sentences ->
            Float.ltb k0 (sentence_score word_scores s) = false).
  { intros s Hin.
    apply (Hmax (s, sentence_score word_scores s)).
    unfold scored, score_sentences.
    apply in_map_iff. now exists s. }
  split.
  - apply Forall_forall. intros s Hin.
    rewrite Forall_forall in Hl1.
    assert (Ht : same_score k0 (s, sentence_score word_scores s) = false).
    { apply Hl1. rewrite <- Hbefore. apply in_map_iff. now exists s. }
    unfold same_score, tied in Ht. cbn in Ht.
    rewrite Hscore in Ht by (rewrite Hs; apply in_app_iff; now left).
    cbn in Ht. apply negb_false_iff in Ht. now rewrite <- Hk0.
  - apply Forall_forall. intros s Hin.
    rewrite <- Hk0. apply Hscore.
    rewrite Hs. apply in_app_iff. right. now right.
Qed.

Lemma top_keywords_length (words : list string) (limit : Z) :
  List.length (top_keywords words limit) <= Z.to_nat limit.
Proof.
  unfold top_keywords, most_common.
  rewrite length_map, length_firstn. apply Nat.le_min_l.
Qed.

(** C2: [build_summary] makes one note per page, in page order, from that
    page alone.  The summary of a page without sentences is
    "(No extractable text)"; otherwise it is one of the sentences of
    [split_sentences] on the text of that page, the first of those that score
    highest against the table of the words of that page.  The keywords are
    the top [min(4, keyword_count)] keywords of the words of that page, at
    most that many. *)
Theorem build_summary_page_notes_local (page_texts : list string)
    (summary_sentences keyword_count : Z) :
  let notes :=
    page_notes (build_summary page_texts summary_sentences keyword_count) in
  List.length notes = List.length page_texts
  /\ forall i text,
       nth_error page_texts i = Some text ->
       exists note,
         nth_error notes i = Some note
         /\ page note = S i
         /\ (split_sentences text = [] -> summary note = NO_TEXT)
         /\ (split_sentences text <> [] ->
             In (summary note) (split_sentences text)
             /\ first_best_sentence text (summary note))
         /\ keywords note
            = top_keywords (tokenize_words text) (Z.min 4 keyword_count)
         /\ List.length (keywords note) <= Z.to_nat (Z.min 4 keyword_count).
Proof.
  cbn [build_summary page_notes].
  split; [apply page_notes_from_length|].
  intros i text Htext.
  exists (page_note keyword_count (S i) text).
  split; [now rewrite page_notes_from_nth, Htext|].
  split; [reflexivity|].
  cbn [page_note summary keywords].
  split; [|split; [|split; [reflexivity | apply top_keywords_length]]].
  - intros ->. now rewrite top_sentences_nil.
  - intros Hne.
    destruct (sort_scored_head (split_sentences text)
                (Counter (tokenize_words text)) Hne)
      as [best [rest [before [after [Esort [Esplit [Hb Ha]]]]]]].
    unfold top_sentences, PyStr.slice_to. rewrite Esort. cbn.
    split.
    + rewrite Esplit. apply in_app_iff. right. now left.
    + exists before, after. unfold page_score. auto.
Qed.

Lemma build_summary_page_notes_local_witness :
  exists note,
    nth_error
      (page_notes
         (build_summary
            ["The cat sat. The cat ran fast."; "Dogs bark loudly at cats."]
            1 3)) 0
    = Some note
    /\ page note = 1
    /\ (split_sentences "The cat sat. The cat ran fast." = [] ->
        summary note = NO_TEXT)
    /\ (split_sentences "The cat sat. The cat ran fast." <> [] ->
        In (summary note) (split_sentences "The cat sat. The cat ran fast.")
        /\ first_best_sentence "The cat sat. The cat ran fast." (summary note))
    /\ keywords note
       = top_keywords (tokenize_words "The cat sat. The cat ran fast.")
           (Z.min 4 3)
    /\ List.length (keywords note) <= Z.to_nat (Z.min 4 3).
Proof.
  apply (proj2 (build_summary_page_notes_local
                  ["The cat sat. The cat ran fast.";
                   "Dogs bark loudly at cats."] 1 3) 0).
  reflexivity.
Defined.

(* ================================================================= *)
(** ** The note box *)

(** C7 as stated fails, in two ways.  A box of 90 by 90 on a page of 100
    by 100 with a margin of 18 is not wider or higher than the page, yet its
    top-right placement starts at (-8, -8).  And without any margin, a box of
    138.7 on a page of 768.38 is placed at 629.6800000000001, from where the
    sum with the box width is 768.3800000000001, beyond the page. *)
Lemma calculate_note_box_leaves_page :
  (float_le Float.zero (Float.of_Z 18)
   /\ float_le (Float.of_Z 90) (Float.of_Z 100)
   /\ calculate_note_box (Float.of_Z 100) (Float.of_Z 100) (Float.of_Z 90)
        (Float.of_Z 90) (Float.of_Z 18) "top-right"
      = (Float.of_Z (-8), Float.of_Z (-8))
   /\ ~ within_page_float (Float.of_Z 100) (Float.of_Z 100) (Float.of_Z 90)
          (Float.of_Z 90)
          (calculate_note_box (Float.of_Z 100) (Float.of_Z 100)
             (Float.of_Z 90) (Float.of_Z 90) (Float.of_Z 18) "top-right"))
  /\ (let page := S754_finite false 6758741956404183 (-43) in
      let box := S754_finite false 4880072408720998 (-45) in
      float_le Float.zero Float.zero
      /\ float_le box page
      /\ fst (calculate_note_box page page box box Float.zero "top-right")
         = S754_finite false 5538723854223934 (-43)
      /\ Float.add (S754_finite false 5538723854223934 (-43)) box
         = S754_finite false 6758741956404184 (-43)
      /\ ~ within_page_float page page box box
             (calculate_note_box page page box box Float.zero "top-right")).
Proof.
  split.
  - split; [reflexivity|]. split; [reflexivity|]. split; [reflexivity|].
    intros [H _]. vm_compute in H. discriminate.
  - cbv zeta. split; [reflexivity|]. split; [reflexivity|].
    split; [reflexivity|]. split; [reflexivity|].
    intros [_ [H _]]. vm_compute in H. discriminate.
Qed.

(* ================================================================= *)
(** ** More about the sentence splitter *)

Module SplitFacts.
Import PyStr Regex.

Lemma lstrip_empty_iff (s : string) :
  lstrip s = EmptyString <-> all_chars isspace s = true.
Proof.
  induction s as [|c r IH]; cbn; [tauto|].
  destruct (isspace c); cbn; [exact IH|].
  split; discriminate.
Qed.

Lemma rstrip_empty_iff (s : string) :
  starts_with_space s = false ->
  (rstrip s = EmptyString <-> s = EmptyString).
Proof.
  destruct s as [|c r]; cbn [starts_with_space rstrip]; [tauto|].
  intros Hc. rewrite Hc.
  destruct (rstrip r); split; discriminate.
Qed.

Lemma strip_empty_iff (s : string) :
  strip s = EmptyString <-> all_chars isspace s = true.
Proof.
  unfold strip.
  rewrite (rstrip_empty_iff _ (StrFacts.lstrip_no_leading s)).
  apply lstrip_empty_iff.
Qed.

Lemma sub_ws_empty_iff (b : bool) (s : string) :
  starts_with_space s = false ->
  (sub_ws b s = EmptyString <-> s = EmptyString).
Proof.
  destruct s as [|c r]; cbn [starts_with_space sub_ws]; [tauto|].
  intros Hc. rewrite Hc. split; discriminate.
Qed.

Lemma cleaned_empty_iff (text : string) :
  cleaned text = EmptyString <-> all_chars isspace text = true.
Proof.
  unfold cleaned.
  rewrite (sub_ws_empty_iff false _ (proj1 (StrFacts.strip_shape text))).
  apply strip_empty_iff.
Qed.

(** The head piece of a scan starts with whitespace only when the scan
    starts inside a piece, after an ordinary character. *)
Lemma split_head_start (st : split_state) (s : string) :
  starts_with_space (hd EmptyString (split_at_terminal st s)) = true ->
  st = Plain.
Proof.
  revert st. induction s as [|c r IH]; intros st; cbn; [discriminate|].
  destruct (isspace c) eqn:Hc.
  - destruct st; cbn; try reflexivity; try discriminate.
    intros H. now apply IH in H.
  - set (st' := if is_terminal c then AfterTerm else Plain).
    pose proof (StrFacts.split_nonempty st' r) as Hne.
    destruct (split_at_terminal st' r); [contradiction|].
    cbn. congruence.
Qed.

Lemma split_no_terminal_space (st : split_state) (s : string) :
  Forall (fun p => has_terminal_space p = false) (split_at_terminal st s).
Proof.
  revert st. induction s as [|c r IH]; intros st; cbn [split_at_terminal].
  - repeat constructor.
  - destruct (isspace c) eqn:Hc.
    + assert (Hterm : is_terminal c = false).
      { revert Hc. destruct c as [[] [] [] [] [] [] [] []]; cbn;
          intros H; try reflexivity; discriminate. }
      destruct st.
      * specialize (IH Plain).
        destruct (split_at_terminal Plain r) as [|p ps]; cbn [push].
        -- repeat constructor. cbn. now rewrite Hterm.
        -- inversion IH; subst. constructor; [|assumption].
           cbn. now rewrite Hterm.
      * constructor; [reflexivity | apply IH].
      * apply IH.
    + set (st' := if is_terminal c then AfterTerm else Plain).
      pose proof (split_head_start st' r) as Hstart.
      specialize (IH st').
      destruct (split_at_terminal st' r) as [|p ps]; cbn [push].
      * repeat constructor. cbn. now rewrite andb_false_r.
      * inversion IH as [|? ? Hp Hps]; subst. constructor; [|assumption].
        cbn [has_terminal_space]. rewrite Hp, orb_false_r.
        destruct (is_terminal c) eqn:Ht; [|reflexivity].
        cbn in Hstart |- *.
        destruct (starts_with_space p); [|reflexivity].
        specialize (Hstart eq_refl). subst st'. discriminate.
Qed.

Lemma ends_with_terminal_cons (c : ascii) (p : string) :
  p <> EmptyString ->
  ends_with_terminal (String c p) = ends_with_terminal p.
Proof. destruct p; [congruence | reflexivity]. Qed.

(** Every piece of a scan that is followed by another one ends with a
    terminal mark; the head piece may still be empty when the scan starts
    right after a terminal mark. *)
Lemma split_ends (st : split_state) (s : string) :
  exists p ps,
    split_at_terminal st s = p :: ps
    /\ Forall (fun q => ends_with_terminal q = true) (removelast ps)
    /\ (ps <> [] ->
        ends_with_terminal p = true \/ (p = EmptyString /\ st = AfterTerm)).
Proof.
  revert st. induction s as [|c r IH]; intros st.
  - exists EmptyString, []. cbn. repeat split; [constructor | congruence].
  - cbn [split_at_terminal]. destruct (isspace c) eqn:Hc.
    + destruct st.
      * destruct (IH Plain) as [p [ps [E [Hps Hp]]]]. rewrite E.
        exists (String c p), ps. cbn [push].
        repeat split; [exact Hps|].
        intros Hne. left.
        destruct (Hp Hne) as [H|[_ H]]; [|discriminate].
        destruct p; [discriminate|]. exact H.
      * destruct (IH InSep) as [p [ps [E [Hps Hp]]]]. rewrite E.
        exists EmptyString, (p :: ps).
        repeat split; [|intros _; right; auto].
        destruct ps as [|q qs]; [constructor|].
        change (removelast (p :: q :: qs)) with (p :: removelast (q :: qs)).
        constructor; [|exact Hps].
        destruct Hp as [H|[_ H]]; [discriminate | exact H | discriminate].
      * destruct (IH InSep) as [p [ps [E [Hps Hp]]]]. rewrite E.
        exists p, ps. repeat split; [exact Hps|].
        intros Hne. destruct (Hp Hne) as [H|[_ H]]; [now left | discriminate].
    + set (st' := if is_terminal c then AfterTerm else Plain).
      destruct (IH st') as [p [ps [E [Hps Hp]]]]. rewrite E.
      exists (String c p), ps. cbn [push].
      repeat split; [exact Hps|].
      intros Hne. left.
      destruct (Hp Hne) as [H|[-> H]].
      * destruct p; [discriminate|]. exact H.
      * subst st'. cbn. destruct (is_terminal c); [reflexivity | discriminate].
Qed.

End SplitFacts.

(** X1: [split_sentences] returns no sentence exactly when the text is
    empty or made of whitespace only. *)
Theorem split_sentences_empty_iff (text : string) :
  split_sentences text = [] <-> all_chars PyStr.isspace text = true.
Proof.
  rewrite <- SplitFacts.cleaned_empty_iff, StrFacts.split_sentences_unfold.
  destruct (cleaned text) as [|c r] eqn:E; cbn [PyStr.is_empty].
  - tauto.
  - split; [|discriminate].
    intros H. now apply StrFacts.split_nonempty in H.
Qed.

(** X2: the sentences joined with single spaces are the text with its
    outer whitespace removed and every run of whitespace turned into one
    space. *)
Theorem split_sentences_rejoin (text : string) :
  PyStr.join " " (split_sentences text) = cleaned text.
Proof.
  rewrite StrFacts.split_sentences_unfold.
  destruct (StrFacts.cleaned_shape text) as [H1 [H2 H3]].
  destruct (cleaned text) as [|c r] eqn:E; [reflexivity|].
  cbn [PyStr.is_empty].
  change (String " "%char EmptyString) with SPACE.
  apply StrFacts.join_split; auto; discriminate.
Qed.

(** X3: every sentence but the last one ends with [.], [!] or [?]. *)
Theorem split_sentences_end_marks (text : string) :
  Forall (fun s => ends_with_terminal s = true)
         (removelast (split_sentences text)).
Proof.
  rewrite StrFacts.split_sentences_unfold.
  destruct (PyStr.is_empty (cleaned text)); [constructor|].
  destruct (SplitFacts.split_ends Regex.Plain (cleaned text))
    as [p [ps [E [Hps Hp]]]].
  rewrite E. destruct ps as [|q qs]; [constructor|].
  change (removelast (p :: q :: qs)) with (p :: removelast (q :: qs)).
  constructor; [|exact Hps].
  destruct Hp as [H|[_ H]]; [discriminate | exact H | discriminate].
Qed.

(** X4: no sentence holds a place where the text would be split again: a
    terminal mark is never directly followed by whitespace inside a
    sentence. *)
Theorem split_sentences_maximal (text : string) :
  Forall (fun s => has_terminal_space s = false) (split_sentences text).
Proof.
  rewrite StrFacts.split_sentences_unfold.
  destruct (PyStr.is_empty (cleaned text)); [constructor|].
  apply SplitFacts.split_no_terminal_space.
Qed.

(* ================================================================= *)
(** ** More about the tokenizer *)

Module TokenizeFacts.
Import PyStr Regex.

Lemma lower_idempotent (s : string) : lower (lower s) = lower s.
Proof.
  induction s as [|c r IH]; [reflexivity|].
  cbn. now rewrite TokenFacts.lower_char_idempotent, IH.
Qed.

Lemma lower_app (a b : string) :
  lower (a ++ b) = (lower a ++ lower b)%string.
Proof.
  induction a as [|c r IH]; [reflexivity|]. cbn. now rewrite IH.
Qed.

Lemma word_runs_nonempty (s : string) : word_runs s <> [].
Proof.
  induction s as [|c r IH]; cbn; [discriminate|].
  destruct (is_word_char c); [|discriminate].
  destruct (word_runs r); [contradiction | discriminate].
Qed.

Lemma push_app (c : ascii) (l l' : list string) :
  l <> [] -> push c (l ++ l') = push c l ++ l'.
Proof. destruct l; [congruence | reflexivity]. Qed.

(** A character outside [[A-Za-z']] ends the run before it. *)
Lemma word_runs_app_sep (a b : string) (c : ascii) :
  is_word_char c = false ->
  word_runs (a ++ String c b) = word_runs a ++ word_runs b.
Proof.
  intros Hc. induction a as [|x r IH]; cbn.
  - now rewrite Hc.
  - rewrite IH. destruct (is_word_char x); [|reflexivity].
    apply push_app, word_runs_nonempty.
Qed.

Lemma tokenize_words_app_sep (a b : string) (c : ascii) :
  is_word_char (lower_char c) = false ->
  tokenize_words (a ++ String c b)
  = tokenize_words a ++ tokenize_words b.
Proof.
  intros Hc. unfold tokenize_words, findall_words.
  rewrite lower_app. cbn [lower].
  rewrite (word_runs_app_sep _ _ _ Hc).
  now rewrite !filter_app.
Qed.

Lemma word_runs_word (w : string) :
  all_chars is_word_char w = true -> word_runs w = [w].
Proof.
  induction w as [|c r IH]; cbn; [reflexivity|].
  intros H. apply andb_prop in H. destruct H as [Hc Hr].
  now rewrite Hc, (IH Hr).
Qed.

(** A content token is its own tokenization. *)
Lemma tokenize_words_token (w : string) :
  content_token w -> tokenize_words w = [w].
Proof.
  intros [[Hlen Hchars] [[Hlow _] Hstop]].
  unfold tokenize_words, findall_words.
  rewrite Hlow, (word_runs_word w Hchars). cbn [filter].
  apply Nat.leb_le in Hlen. rewrite Hlen. cbn [filter].
  now rewrite Hstop.
Qed.

Lemma tokenize_words_join_tokens (toks : list string) :
  Forall content_token toks ->
  tokenize_words (join " " toks) = toks.
Proof.
  induction 1 as [|w rest Hw Hrest IH]; [reflexivity|].
  destruct rest as [|v rest'].
  - cbn [join]. now apply tokenize_words_token.
  - change (join " " (w :: v :: rest'))
      with (w ++ String " "%char (join " " (v :: rest')))%string.
    rewrite tokenize_words_app_sep by reflexivity.
    now rewrite IH, (tokenize_words_token w Hw).
Qed.

Lemma tokenize_words_content (text : string) :
  Forall content_token (tokenize_words text).
Proof.
  unfold tokenize_words, findall_words.
  pose proof (TokenFacts.word_runs_chars (lower text)
                (TokenFacts.lower_no_upper text)) as H.
  rewrite Forall_forall in H |- *.
  intros w Hw.
  apply filter_In in Hw. destruct Hw as [Hw Hstop].
  apply filter_In in Hw. destruct Hw as [Hw Hlen].
  apply negb_true_iff in Hstop. apply Nat.leb_le in Hlen.
  destruct (TokenFacts.lower_word_chars_token w (H w Hw)) as [H1 H2].
  repeat split; auto; apply H2.
Qed.

Lemma tokenize_words_pages (page_texts : list string) :
  tokenize_words (join NEWLINE page_texts)
  = List.concat (map tokenize_words page_texts).
Proof.
  induction page_texts as [|p rest IH]; [reflexivity|].
  destruct rest as [|q rest'].
  - cbn. now rewrite app_nil_r.
  - change (join NEWLINE (p :: q :: rest'))
      with (p ++ String (ascii_of_nat 10) (join NEWLINE (q :: rest')))%string.
    rewrite tokenize_words_app_sep by reflexivity.
    now rewrite IH.
Qed.

Lemma count_occ_concat (w : string) (ls : list (list string)) :
  count_occ string_dec (List.concat ls) w
  = list_sum (map (fun l => count_occ string_dec l w) ls).
Proof.
  induction ls as [|l ls IH]; [reflexivity|].
  cbn. now rewrite count_occ_app, IH.
Qed.

End TokenizeFacts.

(** X5: [tokenize_words] does not see the case of letters: the tokens of a
    lower-cased text are the tokens of the text. *)
Theorem tokenize_words_lower (text : string) :
  tokenize_words (PyStr.lower text) = tokenize_words text.
Proof.
  unfold tokenize_words. now rewrite TokenizeFacts.lower_idempotent.
Qed.

(** X6: the tokens of a text joined with single spaces tokenize to
    themselves. *)
Theorem tokenize_words_join_idempotent (text : string) :
  tokenize_words (PyStr.join " " (tokenize_words text))
  = tokenize_words text.
Proof.
  apply TokenizeFacts.tokenize_words_join_tokens,
    TokenizeFacts.tokenize_words_content.
Qed.

(** X7: no token spans two pages: the tokens of the pages joined with line
    feeds, which is how [build_summary] builds the document text, are the
    tokens of the first page, then those of the second, and so on. *)
Theorem tokenize_words_joined_pages (page_texts : list string) :
  tokenize_words (PyStr.join NEWLINE page_texts)
  = List.concat (map tokenize_words page_texts).
Proof. apply TokenizeFacts.tokenize_words_pages. Qed.

(** X8: in the document-wide table of [build_summary] the count of a word
    is the sum of its counts in the page tables. *)
Theorem document_count_is_sum_of_page_counts (page_texts : list string)
    (w : string) :
  counter_get (Counter (tokenize_words (PyStr.join NEWLINE page_texts))) w
  = list_sum
      (map (fun text => counter_get (Counter (tokenize_words text)) w)
           page_texts).
Proof.
  rewrite Counter_get, TokenizeFacts.tokenize_words_pages.
  unfold occurrences. rewrite TokenizeFacts.count_occ_concat, map_map.
  f_equal. apply map_ext. intros text. now rewrite Counter_get.
Qed.

(* ================================================================= *)
(** ** More about scores and rankings *)

Section SortedInput.
Context {A K : Type}.
Variable key : A -> K.
Variable lt : K -> K -> bool.

(** A list that is in descending order already is left as it is. *)
Lemma sort_desc_fixed (l : list A) :
  StronglySorted (desc key lt) l -> sort_desc key lt l = l.
Proof.
  induction 1 as [|x r Hs IH Hx]; [reflexivity|].
  cbn [sort_desc fold_right]. fold (sort_desc key lt r). rewrite IH.
  destruct r as [|y r']; [reflexivity|].
  inversion Hx as [|? ? Hxy _]; subst.
  cbn [insert_desc]. unfold desc in Hxy. now rewrite Hxy.
Qed.

End SortedInput.

Module ScoreFacts.
Import Float.

Lemma binary_round_aux_nonneg (m e : Z) (l : location) :
  (0 <= m)%Z -> leb zero (binary_round_aux prec emax false m e l) = true.
Proof.
  intros Hm. unfold binary_round_aux.
  pose proof (FloatFacts.shr_fexp_nonneg m e l Hm) as H1.
  destruct (shr_fexp prec emax m e l) as [mrs' e'].
  cbn [fst] in H1.
  pose proof (FloatFacts.shr_fexp_nonneg _ e' loc_Exact
                (FloatFacts.round_nearest_even_nonneg _
                   (loc_of_shr_record mrs') H1)) as H2.
  destruct (shr_fexp prec emax
              (round_nearest_even (shr_m mrs') (loc_of_shr_record mrs'))
              e' loc_Exact) as [mrs'' e''].
  cbn [fst] in H2.
  destruct (shr_m mrs''); [reflexivity| |lia].
  now destruct (e'' <=? emax - prec)%Z.
Qed.

Lemma truediv_nonneg (a b : nat) :
  leb zero (truediv (Z.of_nat a) (Z.of_nat (S b))) = true.
Proof.
  unfold truediv.
  change (Z.of_nat (S b)) with (Zpos (Pos.of_succ_nat b)).
  destruct (Z.of_nat a) as [|p|p] eqn:Ha; [reflexivity| |lia].
  cbn [exact_of_Z SFdiv xorb].
  pose proof (FloatFacts.div_core_nonneg p (Pos.of_succ_nat b) 0 0) as Hq.
  destruct (SFdiv_core_binary prec emax (Zpos p) 0
              (Zpos (Pos.of_succ_nat b)) 0) as [[mz ez] lz].
  now apply binary_round_aux_nonneg.
Qed.

Lemma sentence_score_nonneg (word_scores : counter) (sentence : string) :
  leb zero (sentence_score word_scores sentence) = true.
Proof.
  unfold sentence_score.
  destruct (tokenize_words sentence) as [|w ws]; [reflexivity|].
  cbn [List.length]. apply truediv_nonneg.
Qed.

Lemma counts_sum_zero (word_scores : counter) (words : list string) :
  Forall (fun w => counter_get word_scores w = 0) words ->
  list_sum (map (counter_get word_scores) words) = 0.
Proof.
  induction 1 as [|x l Hx _ IH]; [reflexivity|].
  change (counter_get word_scores x
          + list_sum (map (counter_get word_scores) l) = 0).
  now rewrite Hx, IH.
Qed.

Lemma sentence_score_unknown (word_scores : counter) (sentence : string) :
  Forall (fun w => counter_get word_scores w = 0) (tokenize_words sentence) ->
  sentence_score word_scores sentence = zero.
Proof.
  unfold sentence_score. intros H.
  rewrite (counts_sum_zero _ _ H).
  destruct (tokenize_words sentence); reflexivity.
Qed.

Lemma slice_to_map {A B : Type} (f : A -> B) (l : list A) (n : Z) :
  map f (PyStr.slice_to l n) = PyStr.slice_to (map f l) n.
Proof.
  unfold PyStr.slice_to. rewrite length_map.
  destruct (n <? 0)%Z; symmetry; apply firstn_map.
Qed.

Lemma top_sentences_slice (sentences : list string) (word_scores : counter)
    (limit : Z) :
  top_sentences sentences word_scores limit
  = PyStr.slice_to
      (map fst (sort_scored (score_sentences sentences word_scores))) limit.
Proof. unfold top_sentences. apply slice_to_map. Qed.

End ScoreFacts.

(** X9: every score that [score_sentences] returns is a number that is at
    least 0.0. *)
Theorem score_sentences_nonneg (sentences : list string)
    (word_scores : counter) :
  Forall (fun item => Float.not_nan (snd item)
                      /\ float_le Float.zero (snd item))
         (score_sentences sentences word_scores).
Proof.
  unfold score_sentences. rewrite Forall_map. apply Forall_forall.
  intros s _. cbn [snd]. split.
  - apply sentence_score_not_nan.
  - apply ScoreFacts.sentence_score_nonneg.
Qed.

(** X10: a sentence none of whose content words has a count in the table
    scores exactly 0.0, as a sentence without content words does. *)
Theorem score_sentences_unknown_words (sentences : list string)
    (word_scores : counter) (sentence : string) (score : Float.float) :
  In (sentence, score) (score_sentences sentences word_scores) ->
  (forall w, In w (tokenize_words sentence) -> counter_get word_scores w = 0) ->
  score = Float.zero.
Proof.
  intros Hin Hzero. unfold score_sentences in Hin.
  apply in_map_iff in Hin. destruct Hin as [s [E _]].
  injection E as -> <-.
  apply ScoreFacts.sentence_score_unknown.
  now apply Forall_forall.
Qed.

Lemma score_sentences_unknown_words_witness :
  In ("Dogs bark.", Float.truediv 0 2)
     (score_sentences ["Dogs bark."; "The cat sat."]
        (Counter ["cat"; "sat"; "cat"]))
  /\ Float.truediv 0 2 = Float.zero.
Proof.
  split; [left; reflexivity|].
  apply (score_sentences_unknown_words
           ["Dogs bark."; "The cat sat."] (Counter ["cat"; "sat"; "cat"])
           "Dogs bark." (Float.truediv 0 2)).
  - left. reflexivity.
  - intros w [<-|[<-|[]]]; reflexivity.
Defined.

(** X11: when the sentences come in an order in which no score is followed
    by a greater one, [top_sentences] keeps that order: it returns the
    slice [sentences[:limit]]. *)
Theorem top_sentences_ranked_input (sentences : list string)
    (word_scores : counter) (limit : Z) :
  StronglySorted (desc snd Float.ltb) (score_sentences sentences word_scores) ->
  top_sentences sentences word_scores limit = PyStr.slice_to sentences limit.
Proof.
  intros Hs. rewrite ScoreFacts.top_sentences_slice.
  unfold sort_scored. rewrite (sort_desc_fixed snd Float.ltb _ Hs).
  now rewrite score_sentences_texts.
Qed.

Lemma top_sentences_ranked_input_witness :
  top_sentences ["The cat sat."; "The cat ran fast."; "Of the."]
    (Counter ["cat"; "sat"; "cat"; "ran"; "fast"]) 2
  = ["The cat sat."; "The cat ran fast."].
Proof.
  apply (top_sentences_ranked_input
           ["The cat sat."; "The cat ran fast."; "Of the."]
           (Counter ["cat"; "sat"; "cat"; "ran"; "fast"]) 2).
  repeat constructor.
Defined.

(** X12: with an empty frequency table every sentence scores 0.0 and
    [top_sentences] returns the slice [sentences[:limit]] in the original
    order. *)
Theorem top_sentences_empty_table (sentences : list string) (limit : Z) :
  top_sentences sentences [] limit = PyStr.slice_to sentences limit.
Proof.
  rewrite ScoreFacts.top_sentences_slice.
  unfold sort_scored. rewrite (sort_desc_fixed snd Float.ltb).
  - now rewrite score_sentences_texts.
  - assert (Hzero : forall s, sentence_score [] s = Float.zero).
    { intros s. apply ScoreFacts.sentence_score_unknown.
      apply Forall_forall. reflexivity. }
    unfold score_sentences.
    induction sentences as [|s r IH]; cbn [map]; constructor; [exact IH|].
    rewrite Forall_map. apply Forall_forall. intros s' _.
    unfold desc. cbn [snd]. now rewrite !Hzero.
Qed.

(** X13: the number of sentences [top_sentences] returns, for every integer
    limit: [min(limit, n)] of the [n] sentences for a limit that is not
    negative, [n - |limit|] (none below zero) for a negative one; and every
    returned text is one of the input sentences. *)
Theorem top_sentences_length (sentences : list string) (word_scores : counter)
    (limit : Z) :
  List.length (top_sentences sentences word_scores limit)
  = (if (limit <? 0)%Z
     then List.length sentences - Z.to_nat (- limit)
     else Nat.min (Z.to_nat limit) (List.length sentences))
  /\ incl (top_sentences sentences word_scores limit) sentences.
Proof.
  rewrite ScoreFacts.top_sentences_slice.
  set (ranking := map fst (sort_scored (score_sentences sentences word_scores))).
  assert (Hlen : List.length ranking = List.length sentences).
  { subst ranking.
    now rewrite length_map, sort_scored_length, score_sentences_length. }
  assert (Hperm : Permutation ranking sentences).
  { subst ranking.
    rewrite <- (score_sentences_texts sentences word_scores) at 2.
    apply Permutation_map, sort_desc_perm. }
  split.
  - unfold PyStr.slice_to. rewrite Hlen.
    destruct (limit <? 0)%Z eqn:E; rewrite length_firstn, Hlen.
    + apply Z.ltb_lt in E. lia.
    + reflexivity.
  - intros s Hs. apply (Permutation_in _ Hperm).
    unfold PyStr.slice_to in Hs.
    destruct (limit <? 0)%Z; now apply firstn_In in Hs.
Qed.

(** X14: a smaller limit returns a prefix of what a larger one returns:
    for [0 <= a <= b], [top_sentences] at [a] is the first [a] entries of
    [top_sentences] at [b]. *)
Theorem top_sentences_prefix (sentences : list string) (word_scores : counter)
    (a b : Z) :
  (0 <= a <= b)%Z ->
  top_sentences sentences word_scores a
  = firstn (Z.to_nat a) (top_sentences sentences word_scores b).
Proof.
  intros [Ha Hab]. rewrite !ScoreFacts.top_sentences_slice.
  unfold PyStr.slice_to.
  destruct (Z.ltb_spec a 0) as [|_]; [lia|].
  destruct (Z.ltb_spec b 0) as [|_]; [lia|].
  rewrite firstn_firstn. f_equal. lia.
Qed.

Lemma top_sentences_prefix_witness :
  top_sentences ["The cat sat."; "Of the."; "The cat ran fast."]
    (Counter ["cat"; "sat"; "cat"; "ran"; "fast"]) 1
  = firstn 1
      (top_sentences ["The cat sat."; "Of the."; "The cat ran fast."]
         (Counter ["cat"; "sat"; "cat"; "ran"; "fast"]) 3).
Proof.
  apply (top_sentences_prefix
           ["The cat sat."; "Of the."; "The cat ran fast."]
           (Counter ["cat"; "sat"; "cat"; "ran"; "fast"]) 1 3).
  lia.
Defined.

(* ================================================================= *)
(** ** More about keywords *)

Module KeywordFacts.

Lemma ranked_keys_perm (words : list string) :
  Permutation (map fst (sort_desc snd Nat.ltb (Counter words)))
              (map fst (Counter words)).
Proof. apply Permutation_map, sort_desc_perm. Qed.

Lemma top_keywords_firstn (words : list string) (k : Z) :
  top_keywords words k
  = firstn (Z.to_nat k) (map fst (sort_desc snd Nat.ltb (Counter words))).
Proof. unfold top_keywords, most_common. symmetry. apply firstn_map. Qed.

Lemma ranked_keys_in (words : list string) (w : string) :
  In w (map fst (sort_desc snd Nat.ltb (Counter words))) <-> In w words.
Proof.
  rewrite <- (proj1 (Counter_keys words) w).
  split; apply Permutation_in;
    [|apply Permutation_sym]; apply ranked_keys_perm.
Qed.

Lemma ranked_keys_length (words : list string) :
  List.length (map fst (sort_desc snd Nat.ltb (Counter words)))
  = distinct_count words.
Proof. now rewrite length_map, sort_desc_length, Counter_length. Qed.

Lemma ranked_keys_sorted (words : list string) :
  StronglySorted (keyword_before words)
    (map fst (sort_desc snd Nat.ltb (Counter words))).
Proof.
  pose proof (most_common_ranked words
                (Z.of_nat (List.length (Counter words)))) as H.
  unfold most_common in H.
  rewrite firstn_all2 in H; [exact H|].
  rewrite sort_desc_length. lia.
Qed.

End KeywordFacts.

(** X15: for every integer limit [k], [top_keywords] returns exactly
    [min(k, number of distinct words)] keywords, none for [k <= 0], and
    every keyword is one of the words. *)
Theorem top_keywords_exact_length (words : list string) (k : Z) :
  List.length (top_keywords words k)
  = Nat.min (Z.to_nat k) (distinct_count words)
  /\ incl (top_keywords words k) words.
Proof.
  rewrite KeywordFacts.top_keywords_firstn. split.
  - now rewrite length_firstn, KeywordFacts.ranked_keys_length.
  - intros w Hw. apply firstn_In in Hw.
    now apply KeywordFacts.ranked_keys_in.
Qed.

(** X16: a limit that is not below the number of distinct words returns
    every word, once. *)
Theorem top_keywords_all (words : list string) (k : Z) :
  (Z.of_nat (distinct_count words) <= k)%Z ->
  NoDup (top_keywords words k)
  /\ forall w, In w (top_keywords words k) <-> In w words.
Proof.
  intros Hk. rewrite KeywordFacts.top_keywords_firstn.
  rewrite firstn_all2
    by (rewrite KeywordFacts.ranked_keys_length; lia).
  split.
  - apply (Permutation_NoDup
             (Permutation_sym (KeywordFacts.ranked_keys_perm words))).
    apply Counter_keys.
  - apply KeywordFacts.ranked_keys_in.
Qed.

Lemma top_keywords_all_witness :
  NoDup (top_keywords ["dog"; "cat"; "sat"; "cat"; "dog"; "bird"] 10)
  /\ forall w,
       In w (top_keywords ["dog"; "cat"; "sat"; "cat"; "dog"; "bird"] 10)
       <-> In w ["dog"; "cat"; "sat"; "cat"; "dog"; "bird"].
Proof.
  apply (top_keywords_all ["dog"; "cat"; "sat"; "cat"; "dog"; "bird"] 10).
  vm_compute. discriminate.
Defined.

(** X17: a smaller limit returns a prefix of what a larger one returns:
    for [a <= b], [top_keywords] at [a] is the first [a] entries of
    [top_keywords] at [b]. *)
Theorem top_keywords_prefix (words : list string) (a b : Z) :
  (a <= b)%Z ->
  top_keywords words a = firstn (Z.to_nat a) (top_keywords words b).
Proof.
  intros Hab. rewrite !KeywordFacts.top_keywords_firstn.
  rewrite firstn_firstn. f_equal. lia.
Qed.

Lemma top_keywords_prefix_witness :
  top_keywords ["dog"; "cat"; "sat"; "cat"; "dog"; "bird"] 2
  = firstn 2 (top_keywords ["dog"; "cat"; "sat"; "cat"; "dog"; "bird"] 4).
Proof.
  apply (top_keywords_prefix
           ["dog"; "cat"; "sat"; "cat"; "dog"; "bird"] 2 4).
  lia.
Defined.

(** X18: the first keyword goes before every other word of the input: no
    word occurs more often, and the words that occur as often come later
    in the input. *)
Theorem top_keywords_head_leads (words : list string) (k : Z) (first : string)
    (others : list string) :
  top_keywords words k = first :: others ->
  forall w, In w words -> w <> first -> keyword_before words first w.
Proof.
  intros Htop w Hw Hne.
  rewrite KeywordFacts.top_keywords_firstn in Htop.
  pose proof (KeywordFacts.ranked_keys_sorted words) as Hs.
  apply KeywordFacts.ranked_keys_in in Hw.
  destruct (map fst (sort_desc snd Nat.ltb (Counter words)))
    as [|x rest]; [contradiction|].
  destruct (Z.to_nat k); [discriminate|].
  cbn [firstn] in Htop. injection Htop as -> _.
  inversion Hs as [|? ? _ Hall]; subst.
  rewrite Forall_forall in Hall.
  destruct Hw as [E|Hw]; [congruence | now apply Hall].
Qed.

Lemma top_keywords_head_leads_witness :
  keyword_before ["dog"; "cat"; "sat"; "cat"; "dog"; "bird"] "dog" "cat".
Proof.
  apply (top_keywords_head_leads
           ["dog"; "cat"; "sat"; "cat"; "dog"; "bird"] 2 "dog" ["cat"]).
  - reflexivity.
  - right. left. reflexivity.
  - discriminate.
Defined.

(* ================================================================= *)
(** ** More about the summary builder *)

Module SummaryFacts.

Lemma top_keywords_NoDup (words : list string) (k : Z) :
  NoDup (top_keywords words k).
Proof.
  rewrite KeywordFacts.top_keywords_firstn. apply NoDup_firstn'.
  apply (Permutation_NoDup
           (Permutation_sym (KeywordFacts.ranked_keys_perm words))).
  apply Counter_keys.
Qed.

Lemma top_keywords_incl (words : list string) (k : Z) :
  incl (top_keywords words k) words.
Proof.
  rewrite KeywordFacts.top_keywords_firstn.
  intros w Hw. apply firstn_In in Hw.
  now apply KeywordFacts.ranked_keys_in.
Qed.

Lemma top_sentences_incl (sentences : list string) (word_scores : counter)
    (limit : Z) :
  incl (top_sentences sentences word_scores limit) sentences.
Proof.
  rewrite ScoreFacts.top_sentences_slice.
  intros s Hs.
  assert (Hin : In s (map fst (sort_scored
                                 (score_sentences sentences word_scores)))).
  { unfold PyStr.slice_to in Hs.
    destruct (limit <? 0)%Z; now apply firstn_In in Hs. }
  rewrite <- (score_sentences_texts sentences word_scores).
  revert Hin. apply Permutation_in, Permutation_map, sort_desc_perm.
Qed.

Lemma page_note_shape (keyword_count : Z) (index : nat) (text : string) :
  let note := page_note keyword_count index text in
  page note = index
  /\ List.length (keywords note) <= 4
  /\ NoDup (keywords note)
  /\ summary note <> EmptyString.
Proof.
  cbn [page_note page keywords summary].
  split; [reflexivity|]. split; [|split].
  - pose proof (top_keywords_length (tokenize_words text)
                  (Z.min 4 keyword_count)). lia.
  - apply top_keywords_NoDup.
  - pose proof (top_sentences_incl (split_sentences text)
                  (Counter (tokenize_words text)) 1) as Hincl.
    destruct (top_sentences (split_sentences text)
                (Counter (tokenize_words text)) 1) as [|s rest];
      [discriminate|].
    pose proof (StrFacts.split_pieces_tidy text) as Htidy.
    rewrite Forall_forall in Htidy.
    apply (Htidy s). apply Hincl. now left.
Qed.

Lemma page_notes_from_pages (keyword_count : Z) (index : nat)
    (page_texts : list string) :
  map page (page_notes_from keyword_count index page_texts)
  = seq index (List.length page_texts).
Proof.
  revert index. induction page_texts as [|text rest IH]; intros index;
    [reflexivity|].
  cbn. now rewrite IH.
Qed.

Lemma page_notes_from_shape (keyword_count : Z) (index : nat)
    (page_texts : list string) :
  Forall (fun note => List.length (keywords note) <= 4
                      /\ NoDup (keywords note)
                      /\ summary note <> EmptyString)
         (page_notes_from keyword_count index page_texts).
Proof.
  revert index. induction page_texts as [|text rest IH]; intros index;
    cbn [page_notes_from]; constructor; [|apply IH].
  apply (page_note_shape keyword_count index text).
Qed.

Lemma space_not_word (c : ascii) :
  PyStr.isspace c = true ->
  Regex.is_word_char (PyStr.lower_char c) = false.
Proof.
  destruct c as [[] [] [] [] [] [] [] []]; cbn; intros H;
    try reflexivity; discriminate.
Qed.

Lemma whitespace_no_word (text : string) :
  all_chars PyStr.isspace text = true -> tokenize_words text = [].
Proof.
  intros H. unfold tokenize_words, Regex.findall_words.
  assert (E : filter (fun w => 2 <=? String.length w)
                (Regex.word_runs (PyStr.lower text)) = []).
  { induction text as [|c r IH]; [reflexivity|].
    cbn in H. apply andb_prop in H. destruct H as [Hc Hr].
    cbn [PyStr.lower Regex.word_runs].
    rewrite (space_not_word c Hc). cbn. now apply IH. }
  now rewrite E.
Qed.

End SummaryFacts.

(** X19: in the summary of any document the notes are numbered 1, 2, ...
    in page order, and every note has at most four keywords, no keyword
    twice, and a summary that is not the empty string. *)
Theorem build_summary_notes_shape (page_texts : list string)
    (summary_sentences keyword_count : Z) :
  let notes :=
    page_notes (build_summary page_texts summary_sentences keyword_count) in
  map page notes = seq 1 (List.length page_texts)
  /\ Forall (fun note => List.length (keywords note) <= 4
                         /\ NoDup (keywords note)
                         /\ summary note <> EmptyString) notes.
Proof.
  cbn [build_summary page_notes]. split.
  - apply SummaryFacts.page_notes_from_pages.
  - apply SummaryFacts.page_notes_from_shape.
Qed.

(** X20: the key points of a document hold no word twice, are at most
    [keyword_count] many, and each of them is a content word of some
    page. *)
Theorem build_summary_key_points (page_texts : list string)
    (summary_sentences keyword_count : Z) :
  let points :=
    key_points (build_summary page_texts summary_sentences keyword_count) in
  NoDup points
  /\ List.length points <= Z.to_nat keyword_count
  /\ forall w, In w points ->
       content_token w
       /\ exists text, In text page_texts /\ In w (tokenize_words text).
Proof.
  cbn [build_summary key_points].
  split; [apply SummaryFacts.top_keywords_NoDup|].
  split; [apply top_keywords_length|].
  intros w Hw. apply SummaryFacts.top_keywords_incl in Hw.
  split.
  - pose proof (TokenizeFacts.tokenize_words_content
                  (PyStr.join NEWLINE page_texts)) as H.
    rewrite Forall_forall in H. now apply H.
  - rewrite TokenizeFacts.tokenize_words_pages in Hw.
    apply in_concat in Hw. destruct Hw as [l [Hl Hwl]].
    apply in_map_iff in Hl. destruct Hl as [text [<- Htext]].
    now exists text.
Qed.

(** X21: for a document of one page the note agrees with the document-wide
    results: its keywords are the first four key points, and, when at
    least one summary sentence is asked for, its summary is the first
    sentence of the overall summary (or the sentinel when there is
    none). *)
Theorem build_summary_single_page (text : string)
    (summary_sentences keyword_count : Z) :
  let result := build_summary [text] summary_sentences keyword_count in
  exists note,
    page_notes result = [note]
    /\ keywords note = firstn 4 (key_points result)
    /\ ((1 <= summary_sentences)%Z ->
        summary note = hd NO_TEXT (overall_summary result)).
Proof.
  cbn [build_summary page_notes key_points overall_summary page_notes_from].
  change (PyStr.join NEWLINE [text]) with text.
  eexists. split; [reflexivity|].
  cbn [page_note keywords summary]. split.
  - rewrite !KeywordFacts.top_keywords_firstn, firstn_firstn.
    f_equal. lia.
  - intros Hs. rewrite !ScoreFacts.top_sentences_slice.
    unfold PyStr.slice_to.
    destruct (Z.ltb_spec summary_sentences 0) as [|_]; [lia|].
    cbn [Z.ltb Z.compare].
    destruct (map fst (sort_scored
                         (score_sentences (split_sentences text)
                            (Counter (tokenize_words text)))))
      as [|s rest].
    + now rewrite !firstn_nil.
    + destruct (Z.to_nat summary_sentences) eqn:E; [lia|]. reflexivity.
Qed.

Lemma build_summary_single_page_witness :
  exists note,
    page_notes (build_summary ["The cat sat. The cat ran fast."] 1 3)
    = [note]
    /\ keywords note
       = firstn 4
           (key_points (build_summary ["The cat sat. The cat ran fast."] 1 3))
    /\ ((1 <= 1)%Z ->
        summary note
        = hd NO_TEXT
            (overall_summary
               (build_summary ["The cat sat. The cat ran fast."] 1 3))).
Proof.
  exact (build_summary_single_page "The cat sat. The cat ran fast." 1 3).
Defined.

(** X22: a page that is empty or holds whitespace only gets the note
    "(No extractable text)" without keywords, whatever the other pages
    hold. *)
Theorem build_summary_blank_page (page_texts : list string)
    (summary_sentences keyword_count : Z) (i : nat) (text : string) :
  nth_error page_texts i = Some text ->
  all_chars PyStr.isspace text = true ->
  nth_error
    (page_notes (build_summary page_texts summary_sentences keyword_count)) i
  = Some (empty_note (S i)).
Proof.
  intros Hnth Hblank. cbn [build_summary page_notes].
  rewrite page_notes_from_nth, Hnth. cbn [option_map]. f_equal.
  unfold page_note, empty_note.
  assert (Hs : split_sentences text = []).
  { rewrite StrFacts.split_sentences_unfold.
    now rewrite (proj2 (SplitFacts.cleaned_empty_iff text) Hblank). }
  rewrite Hs, (SummaryFacts.whitespace_no_word text Hblank).
  now rewrite top_sentences_nil, top_keywords_nil.
Qed.

Lemma build_summary_blank_page_witness :
  nth_error (page_notes (build_summary ["The cat sat."; "   "] 1 3)) 1
  = Some (empty_note 2).
Proof.
  apply (build_summary_blank_page ["The cat sat."; "   "] 1 3 1 "   ");
    reflexivity.
Defined.

(* ================================================================= *)
(** ** More about the note box *)

(** X23: every position string other than "top-left", "bottom-left" and
    "bottom-right" places the box as "top-right" does. *)
Theorem calculate_note_box_fallback {N : Type} `{Number N}
    (page_width page_height box_width box_height margin : N)
    (position : string) :
  position <> "top-left" ->
  position <> "bottom-left" ->
  position <> "bottom-right" ->
  calculate_note_box page_width page_height box_width box_height margin
    position
  = calculate_note_box page_width page_height box_width box_height margin
      "top-right".
Proof.
  intros H1 H2 H3. unfold calculate_note_box.
  apply String.eqb_neq in H1, H2, H3. rewrite H1, H2, H3.
  now destruct (String.eqb position "top-right").
Qed.

Lemma calculate_note_box_fallback_witness :
  calculate_note_box (Float.of_Z 612) (Float.of_Z 792) (Float.of_Z 180)
    (Float.of_Z 140) (Float.of_Z 18) "center"
  = calculate_note_box (Float.of_Z 612) (Float.of_Z 792) (Float.of_Z 180)
      (Float.of_Z 140) (Float.of_Z 18) "top-right".
Proof.
  apply calculate_note_box_fallback; discriminate.
Defined.

Module BoxFacts.
Import Float.

Lemma leb_refl (x : float) : not_nan x -> leb x x = true.
Proof.
  unfold leb, SFleb, not_nan.
  destruct x as [[|]|[|]| |[|] m e]; cbn; intros N;
    try reflexivity; try discriminate;
    rewrite Z.compare_refl;
    change (Pos.compare_cont Eq m m) with (Pos.compare m m);
    now rewrite Pos.compare_refl.
Qed.

Lemma ltb_leb (x y : float) : ltb x y = true -> leb x y = true.
Proof.
  unfold ltb, leb, SFltb, SFleb.
  destruct (SFcompare x y) as [[| |]|]; intros H;
    try reflexivity; discriminate.
Qed.

Lemma not_ltb_leb (x y : float) :
  not_nan x -> not_nan y -> ltb y x = false -> leb x y = true.
Proof.
  unfold ltb, leb, SFltb, SFleb, not_nan.
  destruct x as [[|]|[|]| |[|] m1 e1], y as [[|]|[|]| |[|] m2 e2];
    cbn; intros N1 N2 H; try reflexivity; try discriminate;
    FloatFacts.cmp_cases.
Qed.

Lemma float_min_le (a b : float) :
  not_nan a -> not_nan b ->
  float_le (float_min a b) a /\ float_le (float_min a b) b.
Proof.
  intros Na Nb. unfold float_min, float_le.
  destruct (ltb b a) eqn:E.
  - split; [now apply ltb_leb | now apply leb_refl].
  - split; [now apply leb_refl | now apply not_ltb_leb].
Qed.

Lemma mul_literal_not_nan (x : float) (m : positive) (e : Z) :
  not_nan x -> not_nan (float_mul x (S754_finite false m e)).
Proof.
  unfold float_mul. destruct x as [s|s| |s mx ex]; cbn [SFmul];
    intros N; try reflexivity; try discriminate.
  now apply FloatFacts.binary_round_aux_not_nan.
Qed.

End BoxFacts.

(** X25: for requested sizes and page sizes that are numbers, the box size
    that [annotate_pdf] passes on is at most the requested size and at most
    [page_width * 0.4] by [page_height * 0.3] as binary64 computes these
    products. *)
Theorem note_box_size_capped
    (note_width note_height page_width page_height : Float.float) :
  Float.not_nan note_width -> Float.not_nan note_height ->
  Float.not_nan page_width -> Float.not_nan page_height ->
  let size := note_box_size note_width note_height page_width page_height in
  float_le (fst size) note_width
  /\ float_le (fst size) (float_mul page_width LIT_0_4)
  /\ float_le (snd size) note_height
  /\ float_le (snd size) (float_mul page_height LIT_0_3).
Proof.
  intros Nw Nh Pw Ph. cbn [note_box_size fst snd].
  pose proof (BoxFacts.float_min_le note_width
                (float_mul page_width LIT_0_4) Nw
                (BoxFacts.mul_literal_not_nan page_width _ _ Pw)) as [H1 H2].
  pose proof (BoxFacts.float_min_le note_height
                (float_mul page_height LIT_0_3) Nh
                (BoxFacts.mul_literal_not_nan page_height _ _ Ph)) as [H3 H4].
  auto.
Qed.

Lemma note_box_size_capped_witness :
  let size := note_box_size (Float.of_Z 180) (Float.of_Z 140)
                (Float.of_Z 200) (Float.of_Z 792) in
  float_le (fst size) (Float.of_Z 180)
  /\ float_le (fst size) (float_mul (Float.of_Z 200) LIT_0_4)
  /\ float_le (snd size) (Float.of_Z 140)
  /\ float_le (snd size) (float_mul (Float.of_Z 792) LIT_0_3).
Proof.
  apply (note_box_size_capped (Float.of_Z 180) (Float.of_Z 140)
           (Float.of_Z 200) (Float.of_Z 792)); reflexivity.
Defined.

(* ================================================================= *)
(** ** The Markdown export *)

Module MarkdownFacts.
Import PyStr Regex.

Lemma count_chars_app (p : ascii -> bool) (a b : string) :
  count_chars p (a ++ b) = count_chars p a + count_chars p b.
Proof.
  induction a as [|c r IH]; [reflexivity|].
  cbn. rewrite IH. lia.
Qed.

Lemma all_chars_count_zero (p q : ascii -> bool) (s : string) :
  (forall c, p c = true -> q c = false) ->
  all_chars p s = true -> count_chars q s = 0.
Proof.
  intros Hpq. induction s as [|c r IH]; [reflexivity|].
  cbn. intros H. apply andb_prop in H. destruct H as [Hc Hr].
  now rewrite (Hpq c Hc), (IH Hr).
Qed.

Lemma split_all_chars (p : ascii -> bool) (st : split_state) (s : string) :
  all_chars p s = true ->
  Forall (fun piece => all_chars p piece = true) (split_at_terminal st s).
Proof.
  revert st. induction s as [|c r IH]; intros st H; cbn [split_at_terminal].
  - repeat constructor.
  - cbn in H. apply andb_prop in H. destruct H as [Hc Hr].
    assert (Hpush : forall l,
              Forall (fun piece => all_chars p piece = true) l ->
              Forall (fun piece => all_chars p piece = true) (push c l)).
    { intros [|q qs] Hl; cbn [push].
      - repeat constructor. cbn. now rewrite Hc.
      - inversion Hl; subst. constructor; [|assumption].
        cbn. rewrite Hc. assumption. }
    destruct (isspace c).
    + destruct st; try (constructor; [reflexivity|]); auto.
    + auto.
Qed.

Lemma spaces_only_single_line (s : string) :
  spaces_only s = true -> single_line s.
Proof.
  apply all_chars_count_zero.
  intros c. destruct c as [[] [] [] [] [] [] [] []]; cbn; intros H;
    try reflexivity; discriminate.
Qed.

Lemma word_single_line (w : string) :
  all_chars is_word_char w = true -> single_line w.
Proof.
  apply all_chars_count_zero.
  intros c. destruct c as [[] [] [] [] [] [] [] []]; cbn; intros H;
    try reflexivity; discriminate.
Qed.

Lemma split_sentences_single_line (text : string) :
  Forall single_line (split_sentences text).
Proof.
  rewrite StrFacts.split_sentences_unfold.
  destruct (is_empty (cleaned text)); [constructor|].
  destruct (StrFacts.cleaned_shape text) as [_ [_ Hso]].
  eapply Forall_impl;
    [|apply (split_all_chars _ Plain (cleaned text) Hso)].
  intros piece. apply spaces_only_single_line.
Qed.

Lemma tokenize_words_single_line (text : string) :
  Forall single_line (tokenize_words text).
Proof.
  eapply Forall_impl; [|apply TokenizeFacts.tokenize_words_content].
  intros w [[_ Hw] _]. now apply word_single_line.
Qed.

Lemma Forall_incl {A : Type} (P : A -> Prop) (l l' : list A) :
  incl l l' -> Forall P l' -> Forall P l.
Proof.
  intros Hincl H. rewrite Forall_forall in H |- *.
  intros x Hx. apply H, Hincl, Hx.
Qed.

Lemma top_sentences_single_line (text : string) (word_scores : counter)
    (limit : Z) :
  Forall single_line (top_sentences (split_sentences text) word_scores limit).
Proof.
  apply (Forall_incl _ _ _ (SummaryFacts.top_sentences_incl _ _ _)).
  apply split_sentences_single_line.
Qed.

Lemma top_keywords_single_line (text : string) (limit : Z) :
  Forall single_line (top_keywords (tokenize_words text) limit).
Proof.
  apply (Forall_incl _ _ _ (SummaryFacts.top_keywords_incl _ _)).
  apply tokenize_words_single_line.
Qed.

Lemma page_note_single_line (keyword_count : Z) (index : nat) (text : string) :
  single_line_note (page_note keyword_count index text).
Proof.
  unfold single_line_note. cbn [page_note summary keywords]. split.
  - pose proof (top_sentences_single_line text
                  (Counter (tokenize_words text)) 1) as H.
    destruct (top_sentences (split_sentences text)
                (Counter (tokenize_words text)) 1);
      [reflexivity | now inversion H].
  - apply top_keywords_single_line.
Qed.

Lemma page_notes_from_single_line (keyword_count : Z) (index : nat)
    (page_texts : list string) :
  Forall single_line_note (page_notes_from keyword_count index page_texts).
Proof.
  revert index. induction page_texts as [|text rest IH]; intros index;
    cbn [page_notes_from]; constructor; [|apply IH].
  apply page_note_single_line.
Qed.

Lemma join_single_line (sep : string) (parts : list string) :
  single_line sep -> Forall single_line parts ->
  single_line (join sep parts).
Proof.
  unfold single_line. intros Hsep H.
  induction H as [|p rest Hp Hrest IH]; [reflexivity|].
  destruct rest as [|q rest']; [exact Hp|].
  change (join sep (p :: q :: rest'))
    with (p ++ sep ++ join sep (q :: rest'))%string.
  rewrite !count_chars_app, Hp, Hsep, IH. reflexivity.
Qed.

Lemma string_of_uint_single_line (u : Decimal.uint) :
  single_line (NilEmpty.string_of_uint u).
Proof.
  unfold single_line. induction u; cbn; auto.
Qed.

Lemma note_line_single_line (note : PageNote) :
  single_line_note note -> single_line (note_line note).
Proof.
  intros [Hs Hk]. unfold single_line, note_line, str_of_nat in *.
  rewrite !count_chars_app, Hs.
  rewrite (string_of_uint_single_line (Nat.to_uint (page note))).
  assert (Hkt : count_chars is_line_feed (keywords_text (keywords note)) = 0).
  { unfold keywords_text. destruct (keywords note) as [|k ks] eqn:E;
      [reflexivity|].
    apply join_single_line; [reflexivity | exact Hk]. }
  rewrite Hkt. reflexivity.
Qed.

(** A text of single lines, each followed by a line feed, holds as many
    line feeds as lines. *)
Lemma lines_count (lines : list string) :
  Forall single_line lines -> lines <> [] ->
  count_chars is_line_feed (join NEWLINE lines ++ NEWLINE)
  = List.length lines.
Proof.
  unfold single_line. intros H Hne.
  rewrite count_chars_app. change (count_chars is_line_feed NEWLINE) with 1.
  induction H as [|p rest Hp Hrest IH]; [congruence|].
  destruct rest as [|q rest'].
  - cbn [join List.length]. rewrite Hp. reflexivity.
  - change (join NEWLINE (p :: q :: rest'))
      with (p ++ NEWLINE ++ join NEWLINE (q :: rest'))%string.
    rewrite !count_chars_app, Hp.
    change (count_chars is_line_feed NEWLINE) with 1.
    cbn [List.length] in IH |- *.
    specialize (IH ltac:(discriminate)). lia.
Qed.

Lemma markdown_lines_length (s : Summary) :
  List.length (markdown_lines s)
  = 7 + List.length (overall_summary s) + List.length (key_points s)
    + List.length (page_notes s).
Proof.
  unfold markdown_lines. rewrite !length_app, !length_map. cbn. lia.
Qed.

Lemma prefixed_single_line (prefix : string) (l : list string) :
  single_line prefix -> Forall single_line l ->
  Forall single_line (map (fun s => (prefix ++ s)%string) l).
Proof.
  intros Hp H. rewrite Forall_map.
  eapply Forall_impl; [|exact H].
  intros s Hs. unfold single_line in *.
  now rewrite count_chars_app, Hp, Hs.
Qed.

Lemma markdown_lines_single_line (s : Summary) :
  Forall single_line (overall_summary s) ->
  Forall single_line (key_points s) ->
  Forall single_line_note (page_notes s) ->
  Forall single_line (markdown_lines s).
Proof.
  intros Ho Hk Hn. unfold markdown_lines.
  repeat (apply Forall_app; split).
  - repeat constructor.
  - now apply (prefixed_single_line "- ").
  - repeat constructor.
  - now apply (prefixed_single_line "- ").
  - repeat constructor.
  - rewrite Forall_map. eapply Forall_impl; [|exact Hn].
    apply note_line_single_line.
Qed.

End MarkdownFacts.

(** X26: no string of a summary holds a line feed: not the sentences of the
    overall summary, not the key points, not the summary or a keyword of
    any note. *)
Theorem build_summary_single_lines (page_texts : list string)
    (summary_sentences keyword_count : Z) :
  let result := build_summary page_texts summary_sentences keyword_count in
  Forall single_line (overall_summary result)
  /\ Forall single_line (key_points result)
  /\ Forall (fun note => single_line (summary note)
                         /\ Forall single_line (keywords note))
            (page_notes result).
Proof.
  cbn [build_summary overall_summary key_points page_notes].
  split; [apply MarkdownFacts.top_sentences_single_line|].
  split; [apply MarkdownFacts.top_keywords_single_line|].
  apply MarkdownFacts.page_notes_from_single_line.
Qed.

(** X27: the Markdown text of the summary of any document has one line per
    item and nothing else: it holds exactly 7 line feeds for the headings
    and blank lines, one for each sentence of the overall summary, one for
    each key point and one for each page. *)
Theorem write_markdown_line_count (page_texts : list string)
    (summary_sentences keyword_count : Z) :
  let result := build_summary page_texts summary_sentences keyword_count in
  count_chars is_line_feed (write_markdown result)
  = 7 + List.length (overall_summary result)
    + List.length (key_points result)
    + List.length page_texts.
Proof.
  intros result. unfold write_markdown.
  rewrite MarkdownFacts.lines_count.
  - rewrite MarkdownFacts.markdown_lines_length. f_equal.
    subst result. cbn [build_summary page_notes].
    apply page_notes_from_length.
  - subst result.
    cbn [build_summary].
    apply MarkdownFacts.markdown_lines_single_line;
      cbn [overall_summary key_points page_notes].
    + apply MarkdownFacts.top_sentences_single_line.
    + apply MarkdownFacts.top_keywords_single_line.
    + apply MarkdownFacts.page_notes_from_single_line.
  - unfold markdown_lines. discriminate.
Qed.

(* ================================================================= *)
(** ** Texts without a terminal mark *)

Module MarkFacts.
Import PyStr Regex.

Lemma lstrip_no_char (q : ascii -> bool) (s : string) :
  some_char q s = false -> some_char q (lstrip s) = false.
Proof.
  induction s as [|c r IH]; [reflexivity|].
  cbn [lstrip]. intros H. destruct (isspace c); [|exact H].
  cbn in H. apply orb_false_elim in H. now apply IH.
Qed.

Lemma rstrip_no_char (q : ascii -> bool) (s : string) :
  some_char q s = false -> some_char q (rstrip s) = false.
Proof.
  induction s as [|c r IH]; [reflexivity|].
  cbn [some_char rstrip]. intros H.
  apply orb_false_elim in H. destruct H as [Hc Hr]. specialize (IH Hr).
  destruct (rstrip r) as [|d r'].
  - destruct (isspace c); [reflexivity|]. cbn. now rewrite Hc.
  - cbn [some_char] in IH |- *. now rewrite Hc, IH.
Qed.

Lemma sub_ws_no_char (q : ascii -> bool) (b : bool) (s : string) :
  q " "%char = false ->
  some_char q s = false -> some_char q (sub_ws b s) = false.
Proof.
  intros Hq. revert b. induction s as [|c r IH]; intros b; [reflexivity|].
  cbn [some_char sub_ws]. intros H.
  apply orb_false_elim in H. destruct H as [Hc Hr].
  destruct (isspace c).
  - destruct b; [now apply IH|]. cbn [some_char]. rewrite Hq. now apply IH.
  - cbn [some_char]. rewrite Hc. now apply IH.
Qed.

Lemma cleaned_no_terminal (text : string) :
  some_char is_terminal text = false ->
  some_char is_terminal (cleaned text) = false.
Proof.
  intros H. unfold cleaned, strip.
  apply sub_ws_no_char; [reflexivity|].
  now apply rstrip_no_char, lstrip_no_char.
Qed.

Lemma split_no_terminal (s : string) :
  some_char is_terminal s = false -> split_at_terminal Plain s = [s].
Proof.
  induction s as [|c r IH]; [reflexivity|].
  cbn [some_char split_at_terminal]. intros H.
  apply orb_false_elim in H. destruct H as [Hc Hr].
  rewrite Hc, (IH Hr). now destruct (isspace c).
Qed.

End MarkFacts.

(** X28: a text without [.], [!] and [?] is not split: it gives no
    sentence when it is blank, and else one sentence, the text with its
    whitespace normalised. *)
Theorem split_sentences_no_mark (text : string) :
  some_char Regex.is_terminal text = false ->
  split_sentences text
  = if PyStr.is_empty (cleaned text) then [] else [cleaned text].
Proof.
  intros H. rewrite StrFacts.split_sentences_unfold.
  destruct (PyStr.is_empty (cleaned text)); [reflexivity|].
  now apply MarkFacts.split_no_terminal, MarkFacts.cleaned_no_terminal.
Qed.

Lemma split_sentences_no_mark_witness :
  split_sentences "  no   mark here " = ["no mark here"].
Proof.
  apply (split_sentences_no_mark "  no   mark here "). reflexivity.
Defined.

(* ================================================================= *)
(** ** Binary64 rounding and subtraction *)

Module RoundFacts.
Import Float.
Local Open Scope Z_scope.

Lemma digits2_size (p : positive) : digits2_pos p = Pos.size p.
Proof. induction p; cbn; congruence. Qed.

Lemma Zdigits2_log2 (p : positive) : Zdigits2 (Zpos p) = Z.log2 (Zpos p) + 1.
Proof.
  cbn [Zdigits2]. rewrite digits2_size.
  destruct p; cbn; lia.
Qed.

Lemma digits_bounds (p : positive) :
  2 ^ (Zdigits2 (Zpos p) - 1) <= Zpos p < 2 ^ Zdigits2 (Zpos p).
Proof.
  rewrite Zdigits2_log2.
  replace (Z.log2 (Zpos p) + 1 - 1) with (Z.log2 (Zpos p)) by lia.
  replace (Z.log2 (Zpos p) + 1) with (Z.succ (Z.log2 (Zpos p))) by lia.
  apply Z.log2_spec. lia.
Qed.

Lemma digits_unique (m n : Z) :
  0 < n -> 2 ^ (n - 1) <= m < 2 ^ n -> Zdigits2 m = n.
Proof.
  intros Hn H.
  assert (0 < m) by (pose proof (Z.pow_pos_nonneg 2 (n - 1)); lia).
  destruct m as [|p|p]; try lia.
  rewrite Zdigits2_log2.
  rewrite (Z.log2_unique (Zpos p) (n - 1)); try lia.
  replace (Z.succ (n - 1)) with n by lia. exact H.
Qed.

Lemma shr_m_of_loc m l : shr_m (shr_record_of_loc m l) = m.
Proof. destruct l as [|[| |]]; reflexivity. Qed.

Lemma shr_1_div2 mrs : 0 <= shr_m mrs -> shr_m (shr_1 mrs) = Z.div2 (shr_m mrs).
Proof.
  destruct mrs as [m r s]. destruct m as [|[p|p|]|p]; cbn; intros; try reflexivity; lia.
Qed.

Lemma iter_shr_1 (p : positive) mrs :
  0 <= shr_m mrs ->
  shr_m (iter_pos shr_1 p mrs) = Z.shiftr (shr_m mrs) (Zpos p).
Proof.
  revert mrs. induction p as [p IH|p IH|]; intros mrs H.
  - cbn [iter_pos].
    assert (H1 : 0 <= shr_m (shr_1 mrs)) by (rewrite shr_1_div2 by auto; apply Z.div2_nonneg; auto).
    assert (H2 : 0 <= shr_m (iter_pos shr_1 p (shr_1 mrs))) by (rewrite IH by auto; apply Z.shiftr_nonneg; auto).
    rewrite IH, IH, shr_1_div2 by auto.
    rewrite Z.div2_spec, !Z.shiftr_shiftr by lia.
    f_equal. lia.
  - cbn [iter_pos].
    assert (H2 : 0 <= shr_m (iter_pos shr_1 p mrs)) by (rewrite IH by auto; apply Z.shiftr_nonneg; auto).
    rewrite IH, IH by auto.
    rewrite !Z.shiftr_shiftr by lia. f_equal. lia.
  - cbn [iter_pos]. rewrite shr_1_div2 by auto. now rewrite Z.div2_spec.
Qed.

Lemma shr_spec mrs e n :
  0 <= shr_m mrs ->
  shr_m (fst (shr mrs e n)) = shr_m mrs / 2 ^ Z.max 0 n
  /\ snd (shr mrs e n) = e + Z.max 0 n.
Proof.
  intros H. unfold shr. destruct n as [|p|p]; cbn [fst snd].
  - cbn. rewrite Z.div_1_r. lia.
  - rewrite iter_shr_1 by auto. rewrite Z.shiftr_div_pow2 by lia.
    replace (Z.max 0 (Zpos p)) with (Zpos p) by lia. auto.
  - replace (Z.max 0 (Zneg p)) with 0 by lia. cbn. rewrite Z.div_1_r. lia.
Qed.

Lemma fx_eq e : fx e = Z.max (e - 53) (-1074).
Proof. reflexivity. Qed.

Lemma shr_fexp_spec m e l :
  0 <= m ->
  shr_m (fst (shr_fexp prec emax m e l)) = m / 2 ^ k_of m e
  /\ snd (shr_fexp prec emax m e l) = e + k_of m e.
Proof.
  intros H. unfold shr_fexp.
  pose proof (shr_spec (shr_record_of_loc m l) e
                (fexp prec emax (Zdigits2 m + e) - e)) as Hs.
  rewrite shr_m_of_loc in Hs. now apply Hs.
Qed.

Lemma rne_bounds m l : m <= round_nearest_even m l <= m + 1.
Proof.
  destruct l as [|[| |]]; cbn; try lia. destruct (Z.even m); lia.
Qed.

Lemma round_aux_shape s m e l :
  0 <= m ->
  exists m2,
    m / 2 ^ k_of m e <= m2 <= m / 2 ^ k_of m e + 1
    /\ binary_round_aux prec emax s m e l
       = pack s (m2 / 2 ^ k_of m2 (e + k_of m e))
                (e + k_of m e + k_of m2 (e + k_of m e)).
Proof.
  intros Hm. unfold binary_round_aux.
  destruct (shr_fexp_spec m e l Hm) as [H1 H1e].
  destruct (shr_fexp prec emax m e l) as [mrs' e'].
  cbn [fst snd] in H1, H1e.
  set (m2 := round_nearest_even (shr_m mrs') (loc_of_shr_record mrs')).
  pose proof (rne_bounds (shr_m mrs') (loc_of_shr_record mrs')) as Hb.
  fold m2 in Hb. rewrite H1 in Hb.
  assert (Hm1 : 0 <= m / 2 ^ k_of m e).
  { apply Z.div_pos; [lia|]. apply Z.pow_pos_nonneg; unfold k_of; lia. }
  assert (Hm2 : 0 <= m2) by lia.
  destruct (shr_fexp_spec m2 e' loc_Exact Hm2) as [H2 H2e].
  destruct (shr_fexp prec emax m2 e' loc_Exact) as [mrs'' e''].
  cbn [fst snd] in H2, H2e.
  exists m2. split; [exact Hb|].
  rewrite H2, H2e, H1e. reflexivity.
Qed.

Lemma dig_pos (p : positive) : 0 < Zdigits2 (Zpos p).
Proof. cbn. lia. Qed.

Lemma dig_le (p : positive) (n : Z) :
  0 <= n -> Zpos p < 2 ^ n -> Zdigits2 (Zpos p) <= n.
Proof.
  intros Hn H. pose proof (digits_bounds p) as [Hl _].
  pose proof (dig_pos p).
  destruct (Z_le_gt_dec (Zdigits2 (Zpos p)) n) as [|Hgt]; [assumption|].
  assert (2 ^ n <= 2 ^ (Zdigits2 (Zpos p) - 1))
    by (apply Z.pow_le_mono_r; lia).
  lia.
Qed.

Lemma pow2_pos (n : Z) : 0 <= n -> 0 < 2 ^ n.
Proof. intros. apply Z.pow_pos_nonneg; lia. Qed.

Lemma div_pow2_bounds (m a b : Z) :
  0 <= a -> 0 <= b -> 2 ^ (a + b) <= m < 2 ^ (a + b + 1) ->
  2 ^ b <= m / 2 ^ a < 2 ^ (b + 1).
Proof.
  intros Ha Hb [Hl Hu]. pose proof (pow2_pos a Ha). split.
  - apply Z.div_le_lower_bound; [lia|]. rewrite <- Z.pow_add_r by lia. exact Hl.
  - apply Z.div_lt_upper_bound; [lia|]. rewrite <- Z.pow_add_r by lia.
    replace (a + (b + 1)) with (a + b + 1) by lia. exact Hu.
Qed.

Lemma div_pow2_small (m a b : Z) :
  0 <= a -> 0 <= b -> 0 <= m < 2 ^ (a + b) -> 0 <= m / 2 ^ a < 2 ^ b.
Proof.
  intros Ha Hb [Hl Hu]. pose proof (pow2_pos a Ha). split.
  - apply Z.div_pos; lia.
  - apply Z.div_lt_upper_bound; [lia|]. now rewrite <- Z.pow_add_r by lia.
Qed.

Lemma div_pow2_zero (m a : Z) : 0 <= a -> 0 <= m < 2 ^ a -> m / 2 ^ a = 0.
Proof. intros. apply Z.div_small. lia. Qed.

Lemma valid_pack_normal s m2 e1 :
  -1074 <= e1 -> 2 ^ 52 <= m2 <= 2 ^ 53 ->
  valid_binary prec emax (pack s (m2 / 2 ^ k_of m2 e1) (e1 + k_of m2 e1)) = true.
Proof.
  intros He [Hl Hu].
  destruct (Z.eq_dec m2 (2 ^ 53)) as [->|Hne].
  - assert (Hd : Zdigits2 (2 ^ 53) = 54) by reflexivity.
    unfold k_of. rewrite Hd, fx_eq.
    replace (Z.max 0 (Z.max (54 + e1 - 53) (-1074) - e1)) with 1 by lia.
    change (2 ^ 53 / 2 ^ 1) with (Zpos (Pos.iter xO xH 52)).
    unfold pack. destruct (e1 + 1 <=? emax - prec) eqn:E; [|reflexivity].
    cbn [valid_binary]. unfold bounded, canonical_mantissa.
    rewrite E, andb_true_r. apply Z.eqb_eq.
    change (Zpos (digits2_pos (Pos.iter xO xH 52))) with 53.
    change (fexp prec emax (53 + (e1 + 1))) with (fx (53 + (e1 + 1))).
    rewrite fx_eq. lia.
  - assert (Hd : Zdigits2 m2 = 53) by (apply digits_unique; lia).
    unfold k_of. rewrite Hd, fx_eq.
    replace (Z.max 0 (Z.max (53 + e1 - 53) (-1074) - e1)) with 0 by lia.
    rewrite Z.pow_0_r, Z.div_1_r, Z.add_0_r.
    destruct m2 as [|p|p]; try lia.
    unfold pack. destruct (e1 <=? emax - prec) eqn:E; [|reflexivity].
    cbn [valid_binary]. unfold bounded, canonical_mantissa.
    rewrite E, andb_true_r. apply Z.eqb_eq.
    change (Zpos (digits2_pos p)) with (Zdigits2 (Zpos p)). rewrite Hd.
    change (fexp prec emax (53 + e1)) with (fx (53 + e1)).
    rewrite fx_eq. lia.
Qed.

Lemma valid_pack_subnormal s m2 :
  0 <= m2 <= 2 ^ 52 ->
  valid_binary prec emax
    (pack s (m2 / 2 ^ k_of m2 (-1074)) (-1074 + k_of m2 (-1074))) = true.
Proof.
  intros [Hl Hu]. destruct m2 as [|p|p]; try lia; [reflexivity|].
  assert (Hd : Zdigits2 (Zpos p) <= 53).
  { apply dig_le; [lia|]. change (2 ^ 53) with (2 * 2 ^ 52). lia. }
  pose proof (dig_pos p) as Hd0.
  assert (Hk : k_of (Zpos p) (-1074) = 0) by (unfold k_of; rewrite fx_eq; lia).
  rewrite Hk, Z.pow_0_r, Z.div_1_r, Z.add_0_r.
  unfold pack. change (-1074 <=? emax - prec) with true. cbv iota.
  cbn [valid_binary]. unfold bounded, canonical_mantissa.
  rewrite andb_true_r. apply Z.eqb_eq.
  change (Zpos (digits2_pos p)) with (Zdigits2 (Zpos p)).
  change (fexp prec emax (Zdigits2 (Zpos p) + -1074))
    with (fx (Zdigits2 (Zpos p) + -1074)).
  rewrite fx_eq. lia.
Qed.

Lemma round_aux_valid s (p : positive) e l :
  e <= fx (Zdigits2 (Zpos p) + e) ->
  valid_binary prec emax (binary_round_aux prec emax s (Zpos p) e l) = true.
Proof.
  intros He.
  destruct (round_aux_shape s (Zpos p) e l) as [m2 [Hb ->]]; [lia|].
  pose proof (digits_bounds p) as Hdb. pose proof (dig_pos p) as Hd0.
  set (d := Zdigits2 (Zpos p)) in *.
  assert (Hk : k_of (Zpos p) e = fx (d + e) - e) by (unfold k_of; fold d; lia).
  rewrite Hk in *.
  replace (e + (fx (d + e) - e)) with (fx (d + e)) by lia.
  rewrite fx_eq in *.
  destruct (Z_le_gt_dec (-1074) (d + e - 53)) as [Hn|Hs].
  - replace (Z.max (d + e - 53) (-1074)) with (d + e - 53) in * by lia.
    replace (d + e - 53 - e) with (d - 53) in Hb by lia.
    assert (Hm1 : 2 ^ 52 <= Zpos p / 2 ^ (d - 53) < 2 ^ (52 + 1)).
    { apply div_pow2_bounds; try lia.
      replace (d - 53 + 52) with (d - 1) by lia.
      replace (d - 1 + 1) with d by lia. exact Hdb. }
    apply valid_pack_normal; [lia|].
    change (2 ^ (52 + 1)) with (2 ^ 53) in Hm1. lia.
  - replace (Z.max (d + e - 53) (-1074)) with (-1074) in * by lia.
    apply valid_pack_subnormal.
    assert (Hm1 : 0 <= Zpos p / 2 ^ (-1074 - e) < 2 ^ 52).
    { destruct (Z_le_gt_dec (-1074 - e) d) as [Hle|Hgt].
      - assert (H52 : 2 ^ (d - (-1074 - e)) <= 2 ^ 52)
          by (apply Z.pow_le_mono_r; lia).
        pose proof (div_pow2_small (Zpos p) (-1074 - e) (d - (-1074 - e))) as H.
        replace (-1074 - e + (d - (-1074 - e))) with d in H by lia.
        specialize (H ltac:(lia) ltac:(lia) ltac:(lia)). lia.
      - assert (2 ^ d <= 2 ^ (-1074 - e)) by (apply Z.pow_le_mono_r; lia).
        rewrite div_pow2_zero; try lia. }
    lia.
Qed.

Lemma iter_xO_shiftl (m d : positive) :
  Zpos (Pos.iter xO m d) = Zpos m * 2 ^ Zpos d.
Proof.
  revert m. induction d as [|d IH] using Pos.peano_ind; intros m.
  - cbn. lia.
  - rewrite Pos.iter_succ, Pos2Z.inj_succ, Z.pow_succ_r by lia.
    change (Zpos (Pos.iter xO m d)~0) with (2 * Zpos (Pos.iter xO m d)).
    rewrite IH. lia.
Qed.

Lemma iter_xO_digits (m d : positive) :
  Zdigits2 (Zpos (Pos.iter xO m d)) = Zdigits2 (Zpos m) + Zpos d.
Proof.
  revert m. induction d as [|d IH] using Pos.peano_ind; intros m.
  - cbn. lia.
  - rewrite Pos.iter_succ, Pos2Z.inj_succ.
    cbn [Zdigits2 digits2_pos]. rewrite Pos2Z.inj_succ.
    specialize (IH m). cbn [Zdigits2] in IH. lia.
Qed.

Lemma shl_align_spec (mx : positive) (ex ex' : Z) :
  let '(mz, ez) := shl_align mx ex ex' in
  ez = Z.min ex ex'
  /\ Zpos mz = Zpos mx * 2 ^ (ex - ez)
  /\ Zdigits2 (Zpos mz) + ez = Zdigits2 (Zpos mx) + ex.
Proof.
  unfold shl_align. destruct (ex' - ex) as [|d|d] eqn:E.
  - replace (Z.min ex ex') with ex by lia.
    rewrite Z.sub_diag. cbn [Z.pow]. lia.
  - replace (Z.min ex ex') with ex by lia.
    rewrite Z.sub_diag. cbn [Z.pow]. lia.
  - replace (Z.min ex ex') with ex' by lia.
    rewrite iter_xO_digits, iter_xO_shiftl.
    replace (ex - ex') with (Zpos d) by lia. lia.
Qed.

Lemma binary_round_valid s (mx : positive) ex :
  valid_binary prec emax (binary_round prec emax s mx ex) = true.
Proof.
  unfold binary_round.
  pose proof (shl_align_spec mx ex
                (fexp prec emax (Zpos (digits2_pos mx) + ex))) as H.
  destruct (shl_align mx ex (fexp prec emax (Zpos (digits2_pos mx) + ex)))
    as [mz ez].
  destruct H as [Hez [_ Hd]].
  apply round_aux_valid. rewrite Hd.
  change (Zdigits2 (Zpos mx)) with (Zpos (digits2_pos mx)).
  unfold fx. lia.
Qed.

Lemma binary_normalize_valid m e :
  valid_binary prec emax (binary_normalize prec emax m e false) = true.
Proof.
  destruct m; cbn [binary_normalize]; [reflexivity| |]; apply binary_round_valid.
Qed.

Lemma SFsub_valid x y :
  valid_binary prec emax x = true -> valid_binary prec emax y = true ->
  valid_binary prec emax (SFsub prec emax x y) = true.
Proof.
  intros Hx Hy.
  destruct x as [sx|sx| |sx mx ex], y as [sy|sy| |sy my ey];
    cbn [SFsub]; try reflexivity; try assumption.
  - destruct sx, sy; reflexivity.
  - destruct sx, sy; reflexivity.
  - apply binary_normalize_valid.
Qed.

Lemma dig_mono (a b : positive) :
  Zpos a <= Zpos b -> Zdigits2 (Zpos a) <= Zdigits2 (Zpos b).
Proof.
  intros H. rewrite !Zdigits2_log2.
  pose proof (Z.log2_le_mono (Zpos a) (Zpos b) H). lia.
Qed.

Lemma dig_mul_pow2 (a : positive) (j : Z) (b : positive) :
  0 <= j -> Zpos b = Zpos a * 2 ^ j ->
  Zdigits2 (Zpos b) = Zdigits2 (Zpos a) + j.
Proof.
  intros Hj E. rewrite !Zdigits2_log2, E.
  rewrite Z.log2_mul_pow2 by lia. lia.
Qed.

Lemma canonical_fx (s : bool) (m : positive) (e : Z) :
  valid_binary prec emax (S754_finite s m e) = true ->
  fx (Zdigits2 (Zpos m) + e) = e /\ e <= 971.
Proof.
  cbn [valid_binary]. unfold bounded, canonical_mantissa. intros H.
  apply andb_prop in H. destruct H as [H1 H2].
  apply Z.eqb_eq in H1. apply Z.leb_le in H2.
  split; [exact H1 | exact H2].
Qed.

Lemma leb_zero_pack (m3 e3 : Z) :
  0 <= m3 -> SFleb (S754_zero false) (pack false m3 e3) = true.
Proof.
  intros H. destruct m3 as [|p|p]; try lia; [reflexivity|].
  unfold pack. now destruct (e3 <=? emax - prec).
Qed.

Lemma leb_zero_round (p : positive) (e : Z) :
  SFleb (S754_zero false) (binary_round prec emax false p e) = true.
Proof.
  unfold binary_round.
  destruct (shl_align p e (fexp prec emax (Zpos (digits2_pos p) + e)))
    as [mz ez].
  destruct (round_aux_shape false (Zpos mz) ez loc_Exact) as [m2 [Hb ->]];
    [lia|].
  apply leb_zero_pack.
  assert (0 <= Zpos mz / 2 ^ k_of (Zpos mz) ez)
    by (apply Z.div_pos; [lia | apply pow2_pos; unfold k_of; lia]).
  apply Z.div_pos; [lia | apply pow2_pos; unfold k_of; lia].
Qed.

(** Rounding a positive value below the float [mt * 2^et] stays at or below
    that float. *)
Lemma round_below (pd mt : positive) (em et : Z) :
  fx (Zdigits2 (Zpos mt) + et) = et -> et <= 971 ->
  em <= et ->
  Zpos pd < Zpos mt * 2 ^ (et - em) ->
  SFleb (binary_round prec emax false pd em) (S754_finite false mt et) = true.
Proof.
  intros Hcan Hmax Hem Hlt.
  unfold binary_round.
  pose proof (shl_align_spec pd em
                (fexp prec emax (Zpos (digits2_pos pd) + em))) as H.
  destruct (shl_align pd em (fexp prec emax (Zpos (digits2_pos pd) + em)))
    as [mz ez].
  destruct H as [Hez [Hmz Hdz]].
  change (fexp prec emax (Zpos (digits2_pos pd) + em))
    with (fx (Zdigits2 (Zpos pd) + em)) in Hez.
  destruct (round_aux_shape false (Zpos mz) ez loc_Exact) as [m2 [Hb ->]];
    [lia|].
  set (Dd := Zdigits2 (Zpos pd) + em) in *.
  set (e' := fx Dd) in *.
  assert (Hk1 : k_of (Zpos mz) ez = e' - ez).
  { unfold k_of. rewrite Hdz. fold Dd. fold e'. lia. }
  rewrite Hk1 in *.
  replace (ez + (e' - ez)) with e' by lia.
  (* the float t in units of 2^(et - em) *)
  assert (HT : exists T : positive, Zpos T = Zpos mt * 2 ^ (et - em)).
  { pose proof (pow2_pos (et - em) ltac:(lia)).
    destruct (Zpos mt * 2 ^ (et - em)) as [|T|T] eqn:E; try lia.
    now exists T. }
  destruct HT as [T HT].
  assert (HDd : Dd <= Zdigits2 (Zpos mt) + et).
  { unfold Dd.
    pose proof (dig_mono pd T ltac:(lia)).
    pose proof (dig_mul_pow2 mt (et - em) T ltac:(lia) HT). lia. }
  assert (He' : e' <= et) by (unfold e'; rewrite fx_eq in *; lia).
  assert (Hez' : ez <= e') by lia.
  assert (Hez'' : ez <= em) by lia.
  (* t in units of 2^e' *)
  set (Tu := Zpos mt * 2 ^ (et - e')).
  assert (HTu : Zpos mz < Tu * 2 ^ (e' - ez)).
  { unfold Tu. rewrite <- Z.mul_assoc, <- Z.pow_add_r by lia.
    replace (et - e' + (e' - ez)) with ((et - em) + (em - ez)) by lia.
    rewrite Z.pow_add_r, Z.mul_assoc by lia. rewrite Hmz.
    apply Z.mul_lt_mono_pos_r; [apply pow2_pos; lia | exact Hlt]. }
  assert (Hm1 : Zpos mz / 2 ^ (e' - ez) < Tu).
  { apply Z.div_lt_upper_bound; [apply pow2_pos; lia|]. lia. }
  assert (Hm1' : 0 <= Zpos mz / 2 ^ (e' - ez))
    by (apply Z.div_pos; [lia | apply pow2_pos; lia]).
  assert (Hm2 : 0 <= m2 <= Tu) by lia.
  destruct m2 as [|p2|p2]; try lia; [reflexivity|].
  assert (HTu' : exists U : positive, Zpos U = Zpos mt * 2 ^ (et - e')).
  { pose proof (pow2_pos (et - e') ltac:(lia)).
    destruct (Zpos mt * 2 ^ (et - e')) as [|U|U] eqn:E; try lia.
    now exists U. }
  destruct HTu' as [U HU].
  assert (Hd2 : Zdigits2 (Zpos p2) + e' <= Zdigits2 (Zpos mt) + et).
  { pose proof (dig_mono p2 U ltac:(unfold Tu in Hm2; lia)).
    pose proof (dig_mul_pow2 mt (et - e') U ltac:(lia) HU). lia. }
  set (k2 := k_of (Zpos p2) e').
  assert (Hk2 : 0 <= k2 /\ e' + k2 <= et).
  { unfold k2, k_of. rewrite fx_eq in *. lia. }
  assert (Hm3 : 0 <= Zpos p2 / 2 ^ k2)
    by (apply Z.div_pos; [lia | apply pow2_pos; lia]).
  destruct (Zpos p2 / 2 ^ k2) as [|p3|p3] eqn:E3; try lia; [reflexivity|].
  unfold pack.
  replace (e' + k2 <=? emax - prec) with true
    by (symmetry; apply Z.leb_le; unfold emax, prec; lia).
  unfold SFleb. cbn [SFcompare].
  destruct (Z.compare_spec (e' + k2) et) as [Heq|Hl|Hg]; [|reflexivity|lia].
  change (Pos.compare_cont Eq p3 mt) with (Pos.compare p3 mt).
  assert (Hle : Zpos p3 <= Zpos mt).
  { rewrite <- E3. replace k2 with (et - e') by lia.
    rewrite <- (Z.div_mul (Zpos mt) (2 ^ (et - e')))
      by (pose proof (pow2_pos (et - e') ltac:(lia)); lia).
    apply Z.div_le_mono; [apply pow2_pos; lia|]. unfold Tu in Hm2. lia. }
  destruct (Pos.compare_spec p3 mt); try reflexivity. lia.
Qed.

Lemma leb_self (x : spec_float) : SFleb x x = true \/ x = S754_nan.
Proof.
  unfold SFleb.
  destruct x as [[|]|[|]| |[|] m e]; cbn; auto; left;
    rewrite Z.compare_refl;
    change (Pos.compare_cont Eq m m) with (Pos.compare m m);
    now rewrite Pos.compare_refl.
Qed.

Lemma sub_finite_pos (mt mm : positive) (et em : Z) :
  valid_binary prec emax (S754_finite false mt et) = true ->
  valid_binary prec emax (S754_finite false mm em) = true ->
  SFleb (S754_finite false mm em) (S754_finite false mt et) = true ->
  SFleb (S754_zero false)
        (SFsub prec emax (S754_finite false mt et) (S754_finite false mm em))
  = true
  /\ SFleb (SFsub prec emax (S754_finite false mt et)
              (S754_finite false mm em))
           (S754_finite false mt et) = true.
Proof.
  intros Vt Vm Hle.
  destruct (canonical_fx _ _ _ Vt) as [Ct Bt].
  destruct (canonical_fx _ _ _ Vm) as [Cm Bm].
  pose proof (digits_bounds mt) as Dt. pose proof (digits_bounds mm) as Dm.
  pose proof (dig_pos mt) as Pt. pose proof (dig_pos mm) as Pm.
  assert (Hord : em < et \/ (em = et /\ Zpos mm <= Zpos mt)).
  { unfold SFleb in Hle. cbn [SFcompare] in Hle.
    destruct (Z.compare_spec em et) as [E|L|G]; [right|left; lia|discriminate].
    split; [exact E|].
    change (Pos.compare_cont Eq mm mt) with (Pos.compare mm mt) in Hle.
    destruct (Pos.compare_spec mm mt); try discriminate; lia. }
  assert (Hem : em <= et) by lia.
  cbn [SFsub cond_Zopp].
  replace (Z.min et em) with em by lia.
  pose proof (shl_align_spec mt et em) as H1.
  pose proof (shl_align_spec mm em em) as H2.
  destruct (shl_align mt et em) as [zt e1].
  destruct (shl_align mm em em) as [zm e2].
  cbn [fst]. destruct H1 as [E1 [M1 _]]. destruct H2 as [E2 [M2 _]].
  replace e1 with em in * by lia. replace e2 with em in * by lia.
  rewrite Z.sub_diag in M2. cbn [Z.pow] in M2. rewrite Z.mul_1_r in M2.
  rewrite M2.
  assert (Hd : Zpos mm <= Zpos zt).
  { rewrite M1. destruct Hord as [L|[E Hm]].
    - rewrite fx_eq in Ct, Cm.
      assert (Zdigits2 (Zpos mt) = 53) by lia.
      assert (Zdigits2 (Zpos mm) <= 53) by lia.
      assert (2 ^ 52 <= Zpos mt) by (replace 52 with (Zdigits2 (Zpos mt) - 1) by lia; lia).
      assert (Zpos mm < 2 ^ 53).
      { assert (2 ^ Zdigits2 (Zpos mm) <= 2 ^ 53)
          by (apply Z.pow_le_mono_r; lia). lia. }
      assert (2 <= 2 ^ (et - em)).
      { change 2 with (2 ^ 1) at 1. apply Z.pow_le_mono_r; lia. }
      change (2 ^ 53) with (2 ^ 52 * 2) in *. nia.
    - subst em. rewrite Z.sub_diag. cbn [Z.pow]. lia. }
  destruct (Zpos zt - Zpos mm) as [|pd|pd] eqn:Ed; try lia.
  - cbn [binary_normalize]. split; reflexivity.
  - cbn [binary_normalize]. split; [apply leb_zero_round|].
    apply round_below; try assumption. rewrite <- M1. lia.
Qed.

(** A margin between zero and [t] taken off [t] leaves a value between
    zero and [t]. *)
Lemma sub_margin (t m : spec_float) :
  valid_binary prec emax t = true ->
  is_finite_num m = true ->
  SFleb (S754_zero false) m = true ->
  SFleb m t = true ->
  SFleb (S754_zero false) (SFsub prec emax t m) = true
  /\ SFleb (SFsub prec emax t m) t = true.
Proof.
  intros Vt Fm H0 Hle.
  destruct m as [sm|sm| |sm mm em]; try discriminate.
  - (* margin zero *)
    destruct t as [st|st| |st mt et]; try discriminate.
    + cbn [SFsub]. split; destruct st, sm; reflexivity.
    + destruct st; [discriminate|]. split; reflexivity.
    + destruct st; [discriminate|]. cbn [SFsub].
      split; [reflexivity|].
      destruct (leb_self (S754_finite false mt et)); [assumption|discriminate].
  - destruct sm; [discriminate|].
    destruct t as [st|st| |st mt et]; try discriminate.
    + destruct st; [discriminate|]. split; reflexivity.
    + destruct st; [discriminate|].
      apply sub_finite_pos; assumption.
Qed.

End RoundFacts.

(** C7, amended: for binary64 values, a finite margin that is not negative
    and is at most [page_width - box_width] and at most
    [page_height - box_height], these differences being the ones binary64
    subtraction computes, and every position string, [calculate_note_box]
    returns [(x, y)] with [0 <= x <= page_width - box_width] and
    [0 <= y <= page_height - box_height]. *)
Theorem calculate_note_box_corner_on_page
    (page_width page_height box_width box_height margin : Float.float)
    (position : string) :
  is_binary64 page_width -> is_binary64 page_height ->
  is_binary64 box_width -> is_binary64 box_height ->
  is_finite_num margin = true ->
  float_le Float.zero margin ->
  float_le margin (Float.sub page_width box_width) ->
  float_le margin (Float.sub page_height box_height) ->
  corner_on_page page_width page_height box_width box_height
    (calculate_note_box page_width page_height box_width box_height margin
       position).
Proof.
  intros Vpw Vph Vbw Vbh Fm H0 Hw Hh.
  pose proof (RoundFacts.sub_margin (Float.sub page_width box_width) margin
                (RoundFacts.SFsub_valid _ _ Vpw Vbw) Fm H0 Hw) as [Hx0 Hx1].
  pose proof (RoundFacts.sub_margin (Float.sub page_height box_height) margin
                (RoundFacts.SFsub_valid _ _ Vph Vbh) Fm H0 Hh) as [Hy0 Hy1].
  unfold corner_on_page, calculate_note_box.
  destruct (String.eqb position "top-left");
    [|destruct (String.eqb position "top-right");
      [|destruct (String.eqb position "bottom-left");
        [|destruct (String.eqb position "bottom-right")]]];
    cbn [fst snd nsub Number_float]; repeat split; assumption.
Qed.

Lemma calculate_note_box_corner_on_page_witness :
  corner_on_page (Float.of_Z 612) (Float.of_Z 792) (Float.of_Z 180)
    (Float.of_Z 140)
    (calculate_note_box (Float.of_Z 612) (Float.of_Z 792) (Float.of_Z 180)
       (Float.of_Z 140) (Float.of_Z 18) "top-right").
Proof.
  apply calculate_note_box_corner_on_page; reflexivity.
Defined.
